(** * Festival registration form: the form state, its validator and its
      submission sequencing (src/App.tsx, src/types.ts)

    The React component [App] owns five pieces of state (formData, errors,
    isSubmitting, isSuccess, aiMessage) and six handlers.  The development
    below embeds them as functions on an explicit state record; the
    asynchronous handler [handleSubmit] is embedded as a small task tree whose
    suspension points are its two [await]s, and the event loop as a step
    function over the state, the suspended tasks and the log of effects. *)

From Stdlib Require Import NArith Lia Ascii String.
From stdpp Require Import base option list strings gmap.

Local Open Scope N_scope.

(** ** JavaScript strings *)

(** A JavaScript string is a sequence of UTF-16 code units. *)
Abbreviation jsstring := (list N).

(** An ASCII literal of the source as a JavaScript string. *)
Definition js (s : string) : jsstring :=
  (fun a => N_of_ascii a) <$> list_ascii_of_string s.

(** ToBoolean on a string: only the empty string is falsy. *)
Definition truthy (s : jsstring) : bool :=
  match s with
  | [] => false
  | _ :: _ => true
  end.

(** ToBoolean on a message literal of the source. *)
Definition truthy_msg (s : string) : bool :=
  match s with
  | EmptyString => false
  | String _ _ => true
  end.

(** ECMAScript WhiteSpace and LineTerminator code points, the ones
    [String.prototype.trim] strips.  All of them are in the basic plane, so
    they are single code units. *)
Definition isWhiteSpace (c : N) : bool :=
  (c =? 0x0009) || (c =? 0x000A) || (c =? 0x000B) || (c =? 0x000C)
  || (c =? 0x000D) || (c =? 0x0020) || (c =? 0x00A0) || (c =? 0x1680)
  || ((0x2000 <=? c) && (c <=? 0x200A))
  || (c =? 0x2028) || (c =? 0x2029) || (c =? 0x202F) || (c =? 0x205F)
  || (c =? 0x3000) || (c =? 0xFEFF).

Fixpoint trimStart (s : jsstring) : jsstring :=
  match s with
  | [] => []
  | c :: rest => if isWhiteSpace c then trimStart rest else s
  end.

Definition trimEnd (s : jsstring) : jsstring :=
  reverse (trimStart (reverse s)).

(** [String.prototype.trim]. *)
Definition trim (s : jsstring) : jsstring := trimEnd (trimStart s).

(** ** The data model (src/types.ts) *)

(** A [File] as the handlers see it: only [name] and [type] are read. *)
Record File : Type := mkFile {
  file_name : jsstring;
  file_type : jsstring
}.

Record RegistrationData : Type := mkRegistrationData {
  directorName : jsstring;
  playwrightName : jsstring;
  directorPhone : jsstring;
  playTitle : jsstring;
  scriptFile : option File;
  isDirectorPlaywright : bool;
  authorPermissionFile : option File
}.

(** The value under a key of [Partial<Record<keyof RegistrationData, string>>]:
    a key can be present and hold [undefined] (the handlers write
    [{...prev, [name]: undefined}]). *)
Inductive ErrorValue : Type :=
  | undefined
  | message (text : string).

(** The error object, keyed by property name. *)
Abbreviation ErrorMap := (gmap string ErrorValue).

(** Property read [errors[key]]: a missing key reads as [undefined]. *)
Definition prop (errors : ErrorMap) (key : string) : ErrorValue :=
  default undefined (errors !! key).

(** ToBoolean on a property value. *)
Definition truthy_value (v : ErrorValue) : bool :=
  match v with
  | undefined => false
  | message text => truthy_msg text
  end.

(** ToBoolean on [File | null]: an object is always truthy. *)
Definition truthy_file (f : option File) : bool :=
  match f with
  | Some _ => true
  | None => false
  end.

(** The [name] attributes of the four [Input] elements wired to
    [handleInputChange]. *)
Inductive TextField : Type :=
  | DirectorName
  | PlaywrightName
  | DirectorPhone
  | PlayTitle.

Definition field_key (name : TextField) : string :=
  match name with
  | DirectorName => "directorName"
  | PlaywrightName => "playwrightName"
  | DirectorPhone => "directorPhone"
  | PlayTitle => "playTitle"
  end.

Definition field_value (name : TextField) (d : RegistrationData) : jsstring :=
  match name with
  | DirectorName => directorName d
  | PlaywrightName => playwrightName d
  | DirectorPhone => directorPhone d
  | PlayTitle => playTitle d
  end.

(** [{...prev, [name]: value}] for one of the four text inputs. *)
Definition with_text (name : TextField) (value : jsstring)
    (prev : RegistrationData) : RegistrationData :=
  match name with
  | DirectorName =>
      mkRegistrationData value (playwrightName prev) (directorPhone prev)
        (playTitle prev) (scriptFile prev) (isDirectorPlaywright prev)
        (authorPermissionFile prev)
  | PlaywrightName =>
      mkRegistrationData (directorName prev) value (directorPhone prev)
        (playTitle prev) (scriptFile prev) (isDirectorPlaywright prev)
        (authorPermissionFile prev)
  | DirectorPhone =>
      mkRegistrationData (directorName prev) (playwrightName prev) value
        (playTitle prev) (scriptFile prev) (isDirectorPlaywright prev)
        (authorPermissionFile prev)
  | PlayTitle =>
      mkRegistrationData (directorName prev) (playwrightName prev)
        (directorPhone prev) value (scriptFile prev)
        (isDirectorPlaywright prev) (authorPermissionFile prev)
  end.

(** [{...prev, scriptFile: file}]. *)
Definition with_scriptFile (file : option File)
    (prev : RegistrationData) : RegistrationData :=
  mkRegistrationData (directorName prev) (playwrightName prev)
    (directorPhone prev) (playTitle prev) file (isDirectorPlaywright prev)
    (authorPermissionFile prev).

(** [{...prev, authorPermissionFile: file}]. *)
Definition with_authorPermissionFile (file : option File)
    (prev : RegistrationData) : RegistrationData :=
  mkRegistrationData (directorName prev) (playwrightName prev)
    (directorPhone prev) (playTitle prev) (scriptFile prev)
    (isDirectorPlaywright prev) file.

(** The component's state: the five [useState] cells of [App]. *)
Record AppState : Type := mkAppState {
  formData : RegistrationData;
  errors : ErrorMap;
  isSubmitting : bool;
  isSuccess : bool;
  aiMessage : jsstring
}.

Definition setFormData (f : RegistrationData -> RegistrationData)
    (s : AppState) : AppState :=
  mkAppState (f (formData s)) (errors s) (isSubmitting s) (isSuccess s)
    (aiMessage s).

Definition setErrors (f : ErrorMap -> ErrorMap) (s : AppState) : AppState :=
  mkAppState (formData s) (f (errors s)) (isSubmitting s) (isSuccess s)
    (aiMessage s).

Definition setIsSubmitting (b : bool) (s : AppState) : AppState :=
  mkAppState (formData s) (errors s) b (isSuccess s) (aiMessage s).

Definition setIsSuccess (b : bool) (s : AppState) : AppState :=
  mkAppState (formData s) (errors s) (isSubmitting s) b (aiMessage s).

Definition setAiMessage (m : jsstring) (s : AppState) : AppState :=
  mkAppState (formData s) (errors s) (isSubmitting s) (isSuccess s) m.

(** The object literal passed to [useState] and to [setFormData] in
    [resetForm]. *)
Definition defaultFormData : RegistrationData :=
  mkRegistrationData [] [] [] [] None true None.

(** The state on mount. *)
Definition initialState : AppState :=
  mkAppState defaultFormData ∅ false false [].

(** ** The synchronous handlers (src/App.tsx, lines 23-62 and 105-118) *)

(** Strict equality [===] on strings. *)
Definition strict_eq (a b : jsstring) : bool := bool_decide (a = b).

(** [Array.prototype.includes] on an array of strings. *)
Definition includes (xs : list jsstring) (x : jsstring) : bool :=
  existsb (strict_eq x) xs.

(** The change event of an [<input type="file">]: [e.target.files]. *)
Record FileChangeEvent : Type := mkFileChangeEvent {
  target_files : option (list File)
}.

(** [e.target.files?.[0] || null]. *)
Definition first_file (e : FileChangeEvent) : option File :=
  match target_files e with
  | Some (file :: _) => Some file
  | Some [] => None
  | None => None
  end.

Definition scriptTypeMessage : string :=
  "لطفا فقط فایل PDF بارگذاری کنید.".

Definition permissionTypeMessage : string :=
  "لطفا فایل PDF یا تصویر (JPG/PNG) معتبر بارگذاری کنید.".

Definition handleInputChange (name : TextField) (value : jsstring)
    (s : AppState) : AppState :=
  let s1 := setFormData (with_text name value) s in
  if truthy_value (prop (errors s) (field_key name))
  then setErrors (fun prev => <[field_key name := undefined]> prev) s1
  else s1.

Definition handleRadioChange (isDirector : bool) (s : AppState) : AppState :=
  let s1 :=
    setFormData (fun prev =>
      mkRegistrationData (directorName prev) (playwrightName prev)
        (directorPhone prev) (playTitle prev) (scriptFile prev)
        isDirector
        (if isDirector then None else authorPermissionFile prev)) s in
  if isDirector
  then setErrors (fun prev => <["authorPermissionFile" := undefined]> prev) s1
  else s1.

(** [file && file.type !== 'application/pdf']. *)
Definition script_guard (file : option File) : bool :=
  match file with
  | Some f => negb (strict_eq (file_type f) (js "application/pdf"))
  | None => false
  end.

Definition handleScriptChange (e : FileChangeEvent) (s : AppState) : AppState :=
  let file := first_file e in
  if script_guard file
  then setErrors (fun prev => <["scriptFile" := message scriptTypeMessage]> prev) s
  else
    let s1 := setFormData (with_scriptFile file) s in
    setErrors (fun prev => <["scriptFile" := undefined]> prev) s1.

Definition permissionTypes : list jsstring :=
  [js "application/pdf"; js "image/jpeg"; js "image/png"; js "image/jpg"].

(** [file && ![...].includes(file.type)]. *)
Definition permission_guard (file : option File) : bool :=
  match file with
  | Some f => negb (includes permissionTypes (file_type f))
  | None => false
  end.

Definition handlePermissionChange (e : FileChangeEvent)
    (s : AppState) : AppState :=
  let file := first_file e in
  if permission_guard file
  then
    setErrors
      (fun prev => <["authorPermissionFile" := message permissionTypeMessage]> prev) s
  else
    let s1 := setFormData (with_authorPermissionFile file) s in
    setErrors (fun prev => <["authorPermissionFile" := undefined]> prev) s1.

Definition resetForm (s : AppState) : AppState :=
  let s1 := setFormData (fun _ => defaultFormData) s in
  let s2 := setIsSuccess false s1 in
  let s3 := setAiMessage [] s2 in
  setErrors (fun _ => ∅) s3.

(** ** The validator (src/App.tsx, lines 68-79) *)

Definition directorNameRequired : string := "نام کارگردان الزامی است.".
Definition playwrightNameRequired : string := "نام نویسنده الزامی است.".
Definition directorPhoneRequired : string :=
  "شماره همراه کارگردان الزامی است.".
Definition playTitleRequired : string := "نام اثر الزامی است.".
Definition scriptFileRequired : string :=
  "بارگذاری فایل نمایشنامه الزامی است.".
Definition authorPermissionRequired : string :=
  "چون کارگردان و نویسنده یکی نیستند، بارگذاری مجوز الزامی است.".

(** [if (cond) newErrors[key] = text;] *)
Definition assign_if (cond : bool) (key text : string)
    (newErrors : ErrorMap) : ErrorMap :=
  if cond then <[key := message text]> newErrors else newErrors.

Definition validate (formData : RegistrationData) : ErrorMap :=
  let newErrors : ErrorMap := ∅ in
  let newErrors :=
    assign_if (negb (truthy (trim (directorName formData))))
      "directorName" directorNameRequired newErrors in
  let newErrors :=
    assign_if (negb (truthy (trim (playwrightName formData))))
      "playwrightName" playwrightNameRequired newErrors in
  let newErrors :=
    assign_if (negb (truthy (trim (directorPhone formData))))
      "directorPhone" directorPhoneRequired newErrors in
  let newErrors :=
    assign_if (negb (truthy (trim (playTitle formData))))
      "playTitle" playTitleRequired newErrors in
  let newErrors :=
    assign_if (negb (truthy_file (scriptFile formData)))
      "scriptFile" scriptFileRequired newErrors in
  let newErrors :=
    assign_if (negb (isDirectorPlaywright formData)
               && negb (truthy_file (authorPermissionFile formData)))
      "authorPermissionFile" authorPermissionRequired newErrors in
  newErrors.

(** [Object.keys(newErrors).length > 0]. *)
Definition has_keys (newErrors : ErrorMap) : bool :=
  (0 <? size newErrors)%nat.

(** ** The asynchronous handler (src/App.tsx, lines 64-103) *)

(** What the handlers do to the outside. *)
Inductive Effect : Type :=
  | PreventDefault
  | SetTimeout (ms : N)
  | CallGenerateWelcomeMessage (name title : jsstring)
  | ConsoleError (label : string)
  | Alert (text : string).

(** How the promise of [generateWelcomeMessage] settles. *)
Inductive Outcome : Type :=
  | Resolved (text : jsstring)
  | Rejected.

(** The body of an async handler: state updates and effects in sequence,
    suspended at each [await] until the awaited promise settles. *)
Inductive Task : Type :=
  | Return
  | SetState (f : AppState -> AppState) (k : Task)
  | Perform (e : Effect) (k : Task)
  | AwaitTimeout (ms : N) (k : Task)
  | AwaitGenerate (name title : jsstring) (k : Outcome -> Task).

Definition submitFailedLabel : string := "Submission failed".
Definition submitFailedNotice : string :=
  "خطایی رخ داد. لطفا مجددا تلاش کنید.".

(** [handleSubmit], as the closure created by the render that saw
    [formData]. *)
Definition handleSubmit (formData : RegistrationData) : Task :=
  Perform PreventDefault
    (let newErrors := validate formData in
     if has_keys newErrors
     then SetState (setErrors (fun _ => newErrors)) Return
     else
       SetState (setIsSubmitting true)
         (let finally := SetState (setIsSubmitting false) Return in
          AwaitTimeout 1500
            (AwaitGenerate (directorName formData) (playTitle formData)
               (fun settled =>
                  match settled with
                  | Resolved text =>
                      SetState (setAiMessage text)
                        (SetState (setIsSuccess true) finally)
                  | Rejected =>
                      Perform (ConsoleError submitFailedLabel)
                        (Perform (Alert submitFailedNotice) finally)
                  end)))).

(** ** The event loop *)

(** The page: the component's state, the handler invocations suspended at an
    [await], and the effects performed so far (oldest first). *)
Record World : Type := mkWorld {
  app : AppState;
  suspended : list Task;
  log : list Effect
}.

Definition initialWorld : World := mkWorld initialState [] [].

(** Run a task until it returns or reaches an [await].  Reaching an [await]
    starts the awaited operation and suspends the task there. *)
Fixpoint run (t : Task) (w : World) : World :=
  match t with
  | Return => w
  | SetState f k => run k (mkWorld (f (app w)) (suspended w) (log w))
  | Perform e k => run k (mkWorld (app w) (suspended w) (log w ++ [e]))
  | AwaitTimeout ms _ =>
      mkWorld (app w) (suspended w ++ [t]) (log w ++ [SetTimeout ms])
  | AwaitGenerate name title _ =>
      mkWorld (app w) (suspended w ++ [t])
        (log w ++ [CallGenerateWelcomeMessage name title])
  end.

(** A synchronous handler runs to completion in one turn. *)
Definition apply_handler (h : AppState -> AppState) (w : World) : World :=
  mkWorld (h (app w)) (suspended w) (log w).

(** What can happen to the page: the DOM events wired in the JSX and the
    settling of an awaited promise of the [i]-th suspended invocation. *)
Inductive Event : Type :=
  | InputChange (name : TextField) (value : jsstring)
  | RadioClick (isDirector : bool)
  | ScriptChange (e : FileChangeEvent)
  | PermissionChange (e : FileChangeEvent)
  | Submit
  | ResetClick
  | TimerFires (i : nat)
  | GeneratorSettles (i : nat) (settled : Outcome).

(** Which DOM events the rendered tree can deliver: the form is rendered
    while [!isSuccess], the permission input while [!isDirectorPlaywright],
    and the reset button in the success view only.  The form's only submit
    button is [disabled={isSubmitting}]; a disabled default button delivers
    no click and blocks implicit submission from the text inputs, so the
    form fires no submit event while the flag is up.  [handleSubmit] itself
    does not test the flag.  The settling of a promise is not a DOM event
    and is not gated by the tree. *)
Definition rendered (s : AppState) (ev : Event) : bool :=
  match ev with
  | InputChange _ _ | RadioClick _ | ScriptChange _ => negb (isSuccess s)
  | PermissionChange _ =>
      negb (isSuccess s) && negb (isDirectorPlaywright (formData s))
  | Submit => negb (isSuccess s) && negb (isSubmitting s)
  | ResetClick => isSuccess s
  | TimerFires _ | GeneratorSettles _ _ => true
  end.

(** One turn of the event loop; [None] when the event cannot occur. *)
Definition step (w : World) (ev : Event) : option World :=
  if rendered (app w) ev then
    match ev with
    | InputChange name value =>
        Some (apply_handler (handleInputChange name value) w)
    | RadioClick isDirector =>
        Some (apply_handler (handleRadioChange isDirector) w)
    | ScriptChange e => Some (apply_handler (handleScriptChange e) w)
    | PermissionChange e => Some (apply_handler (handlePermissionChange e) w)
    | Submit => Some (run (handleSubmit (formData (app w))) w)
    | ResetClick => Some (apply_handler resetForm w)
    | TimerFires i =>
        match suspended w !! i with
        | Some (AwaitTimeout _ k) =>
            Some (run k (mkWorld (app w) (delete i (suspended w)) (log w)))
        | _ => None
        end
    | GeneratorSettles i settled =>
        match suspended w !! i with
        | Some (AwaitGenerate _ _ k) =>
            Some (run (k settled)
                    (mkWorld (app w) (delete i (suspended w)) (log w)))
        | _ => None
        end
    end
  else None.

(** A sequence of turns. *)
Fixpoint steps (w : World) (evs : list Event) : option World :=
  match evs with
  | [] => Some w
  | ev :: rest =>
      match step w ev with
      | Some w' => steps w' rest
      | None => None
      end
  end.

(** The pages that can be reached from the mount. *)
Definition reachable (w : World) : Prop :=
  exists evs, steps initialWorld evs = Some w.

(** ** Vocabulary of the statements *)

(** A string made of white space only (the empty string included). *)
Definition whitespace_only (s : jsstring) : bool := forallb isWhiteSpace s.

(** The message the validator attaches to each required text field. *)
Definition required_message (name : TextField) : string :=
  match name with
  | DirectorName => directorNameRequired
  | PlaywrightName => playwrightNameRequired
  | DirectorPhone => directorPhoneRequired
  | PlayTitle => playTitleRequired
  end.

(** 1 when the rule fails, 0 when it passes. *)
Definition failed (b : bool) : nat := if b then 1%nat else 0%nat.

(** The three states the orchestrator shows, read off the two flags. *)
Inductive Phase : Type :=
  | Idle
  | Submitting
  | Success.

Definition phase (s : AppState) : Phase :=
  if isSuccess s then Success
  else if isSubmitting s then Submitting
  else Idle.

(** The permission guard in the specification's words: three accepted types,
    the alias image/jpg read as image/jpeg. *)
Definition normalize_alias (type : jsstring) : jsstring :=
  if strict_eq type (js "image/jpg") then js "image/jpeg" else type.

Definition acceptedPermissionTypes : list jsstring :=
  [js "application/pdf"; js "image/jpeg"; js "image/png"].

Definition permission_accepted (type : jsstring) : bool :=
  includes acceptedPermissionTypes (normalize_alias type).

(** The two points where an invocation of [handleSubmit] that passed
    validation is suspended, and what it does once the generator settles. *)
Definition on_settled (settled : Outcome) : Task :=
  match settled with
  | Resolved text =>
      SetState (setAiMessage text)
        (SetState (setIsSuccess true)
           (SetState (setIsSubmitting false) Return))
  | Rejected =>
      Perform (ConsoleError submitFailedLabel)
        (Perform (Alert submitFailedNotice)
           (SetState (setIsSubmitting false) Return))
  end.

Definition awaiting_generator (formData : RegistrationData) : Task :=
  AwaitGenerate (directorName formData) (playTitle formData) on_settled.

Definition awaiting_delay (formData : RegistrationData) : Task :=
  AwaitTimeout 1500 (awaiting_generator formData).

Definition in_flight (t : Task) : Prop :=
  exists formData, t = awaiting_delay formData \/ t = awaiting_generator formData.

(** A stored script is a PDF. *)
Definition script_is_pdf (s : AppState) : Prop :=
  forall f, scriptFile (formData s) = Some f ->
            file_type f = js "application/pdf".

(** The flags agree with the suspended invocations: none suspended and the
    submitting flag down, or exactly one suspended, the flag up and the
    success view not shown. *)
Definition consistent (w : World) : Prop :=
  match suspended w with
  | [] => isSubmitting (app w) = false
  | [t] =>
      in_flight t /\ isSubmitting (app w) = true /\ isSuccess (app w) = false
  | _ :: _ :: _ => False
  end.

(** ** Sample inputs *)

Definition notesTxt : File := mkFile (js "notes.txt") (js "text/plain").
Definition playPdf : File := mkFile (js "play.pdf") (js "application/pdf").
Definition scanJpg : File := mkFile (js "scan.jpg") (js "image/jpg").

(** The user picks one file. *)
Definition picks (f : File) : FileChangeEvent := mkFileChangeEvent (Some [f]).

(** The user closes the picker without a file. *)
Definition picksNothing : FileChangeEvent := mkFileChangeEvent (Some []).

(** The user fills the four text fields and selects a PDF script. *)
Definition fillsForm : list Event :=
  [InputChange DirectorName (js "Ann Lee");
   InputChange PlaywrightName (js "Bo Diaz");
   InputChange DirectorPhone (js "0912");
   InputChange PlayTitle (js "Dusk");
   ScriptChange (picks playPdf)].

Definition filledWorld : World :=
  default initialWorld (steps initialWorld fillsForm).

(** The filled form submitted and the simulated delay elapsed. *)
Definition submittedWorld : World :=
  default initialWorld
    (steps initialWorld (fillsForm ++ [Submit; TimerFires 0])).

(** The filled form submitted and the generator resolved. *)
Definition successWorld : World :=
  default initialWorld
    (steps initialWorld
       (fillsForm ++ [Submit; TimerFires 0;
                      GeneratorSettles 0 (Resolved (js "Bravo"))])).

(** ** Vocabulary of the further properties *)

(** The six property names the handlers write in the error object. *)
Definition errorKeys : list string :=
  ["directorName"; "playwrightName"; "directorPhone"; "playTitle";
   "scriptFile"; "authorPermissionFile"].

(** All six rules of the validator pass. *)
Definition passes (d : RegistrationData) : Prop :=
  whitespace_only (directorName d) = false
  /\ whitespace_only (playwrightName d) = false
  /\ whitespace_only (directorPhone d) = false
  /\ whitespace_only (playTitle d) = false
  /\ scriptFile d <> None
  /\ (isDirectorPlaywright d = true \/ authorPermissionFile d <> None).

(** The events of the form's inputs: typing, the radio buttons and the two
    file pickers. *)
Definition is_input_event (ev : Event) : bool :=
  match ev with
  | InputChange _ _ | RadioClick _ | ScriptChange _ | PermissionChange _ =>
      true
  | Submit | ResetClick | TimerFires _ | GeneratorSettles _ _ => false
  end.

(** The events that come from the rendered tree, as opposed to the settling
    of a promise. *)
Definition is_dom_event (ev : Event) : bool :=
  match ev with
  | TimerFires _ | GeneratorSettles _ _ => false
  | _ => true
  end.

(** A call of the generator with a director name and a play title that are
    not blank; any other effect qualifies. *)
Definition nonblank_call (e : Effect) : Prop :=
  match e with
  | CallGenerateWelcomeMessage name title =>
      whitespace_only name = false /\ whitespace_only title = false
  | _ => True
  end.

(** A suspended submission whose captured form data passed validation. *)
Definition in_flight_valid (t : Task) : Prop :=
  exists d, validate d = ∅
            /\ (t = awaiting_delay d \/ t = awaiting_generator d).

(** A stored permission file has one of the types the guard lets through. *)
Definition permission_is_accepted (s : AppState) : Prop :=
  forall f, authorPermissionFile (formData s) = Some f ->
            includes permissionTypes (file_type f) = true.

(** With the flag up there is no permission file and no permission error. *)
Definition permission_inapplicable (s : AppState) : Prop :=
  isDirectorPlaywright (formData s) = true ->
  authorPermissionFile (formData s) = None
  /\ truthy_value (prop (errors s) "authorPermissionFile") = false.

(** The filled form submitted, the delay elapsed and the generator
    rejected. *)
Definition rejectedWorld : World :=
  default initialWorld
    (steps initialWorld
       (fillsForm ++ [Submit; TimerFires 0; GeneratorSettles 0 Rejected])).

(** The untouched form submitted: validation fails. *)
Definition refusedWorld : World :=
  default initialWorld (steps initialWorld [Submit]).

(** The user says the director is not the playwright and selects a scan of
    the permission. *)
Definition permissionWorld : World :=
  default initialWorld
    (steps initialWorld [RadioClick false; PermissionChange (picks scanJpg)]).

(** What the user types while the filled form is being submitted. *)
Definition editsDuringDelay : list Event :=
  [InputChange DirectorName (js "Zed"); InputChange PlayTitle []].

(** * Properties *)

(** ** Trimming *)

Lemma trimStart_nil (s : jsstring) :
  trimStart s = [] <-> whitespace_only s = true.
Proof.
  induction s as [|c rest IH]; simpl; [tauto|].
  destruct (isWhiteSpace c); simpl; [exact IH|].
  split; discriminate.
Qed.

Lemma trimStart_fixed (s : jsstring) :
  whitespace_only (trimStart s) = true -> trimStart s = [].
Proof.
  induction s as [|c rest IH]; simpl; [reflexivity|].
  destruct (isWhiteSpace c) eqn:Hc; [exact IH|].
  simpl. rewrite Hc. discriminate.
Qed.

Lemma whitespace_only_reverse (s : jsstring) :
  whitespace_only (reverse s) = whitespace_only s.
Proof.
  unfold whitespace_only.
  apply eq_true_iff_eq. rewrite !forallb_forall.
  split; intros H c Hin; apply H; apply list_elem_of_In;
    apply list_elem_of_In in Hin; rewrite elem_of_reverse in *; exact Hin.
Qed.

Lemma reverse_nil_inv {A} (l : list A) : reverse l = [] -> l = [].
Proof.
  intros H. apply (f_equal length) in H.
  rewrite length_reverse in H. destruct l; [reflexivity|discriminate].
Qed.

Lemma trim_nil (s : jsstring) : trim s = [] <-> whitespace_only s = true.
Proof.
  unfold trim, trimEnd. split.
  - intros H. apply reverse_nil_inv in H.
    apply trimStart_nil in H. rewrite whitespace_only_reverse in H.
    apply trimStart_nil, trimStart_fixed, H.
  - intros H. apply trimStart_nil in H. rewrite H. reflexivity.
Qed.

Lemma truthy_trim (s : jsstring) :
  truthy (trim s) = negb (whitespace_only s).
Proof.
  destruct (whitespace_only s) eqn:Hw.
  - apply trim_nil in Hw. rewrite Hw. reflexivity.
  - destruct (trim s) eqn:Ht; [|reflexivity].
    apply trim_nil in Ht. congruence.
Qed.

(** Tab, space and ideographic space around "A B" are stripped, the inner
    space stays. *)
Example trim_sample : trim [0x09; 0x20; 0x41; 0x20; 0x42; 0x3000; 0x0A] = [0x41; 0x20; 0x42].
Proof. reflexivity. Qed.

Example trim_blank : trim [0x20; 0xA0; 0xFEFF; 0x2028] = [].
Proof. reflexivity. Qed.

(** ** The validator, key by key *)

Ltac split_rules d :=
  unfold validate, assign_if;
  destruct (truthy (trim (directorName d)));
  destruct (truthy (trim (playwrightName d)));
  destruct (truthy (trim (directorPhone d)));
  destruct (truthy (trim (playTitle d)));
  destruct (scriptFile d);
  destruct (isDirectorPlaywright d);
  destruct (authorPermissionFile d).

Lemma validate_text (name : TextField) (d : RegistrationData) :
  validate d !! field_key name =
    if truthy (trim (field_value name d)) then None
    else Some (message (required_message name)).
Proof. destruct name; simpl; split_rules d; vm_compute; reflexivity. Qed.

Lemma validate_scriptFile (d : RegistrationData) :
  validate d !! "scriptFile" =
    match scriptFile d with
    | Some _ => None
    | None => Some (message scriptFileRequired)
    end.
Proof. split_rules d; vm_compute; reflexivity. Qed.

Lemma validate_authorPermissionFile (d : RegistrationData) :
  validate d !! "authorPermissionFile" =
    if isDirectorPlaywright d then None
    else match authorPermissionFile d with
         | Some _ => None
         | None => Some (message authorPermissionRequired)
         end.
Proof. split_rules d; vm_compute; reflexivity. Qed.

Lemma validate_size (d : RegistrationData) :
  size (validate d) =
    (failed (negb (truthy (trim (directorName d))))
     + failed (negb (truthy (trim (playwrightName d))))
     + failed (negb (truthy (trim (directorPhone d))))
     + failed (negb (truthy (trim (playTitle d))))
     + failed (negb (truthy_file (scriptFile d)))
     + failed (negb (isDirectorPlaywright d)
               && negb (truthy_file (authorPermissionFile d))))%nat.
Proof. split_rules d; vm_compute; reflexivity. Qed.

Lemma has_keys_nonempty (m : ErrorMap) : has_keys m = true <-> m <> ∅.
Proof.
  unfold has_keys. rewrite Nat.ltb_lt.
  split.
  - intros H ->. rewrite map_size_empty in H. lia.
  - intros H. destruct (size m) eqn:Hs; [|lia].
    apply map_size_empty_iff in Hs. contradiction.
Qed.

(** ** The suspended invocations *)

Lemma handleSubmit_invalid (d : RegistrationData) :
  has_keys (validate d) = true ->
  handleSubmit d =
    Perform PreventDefault (SetState (setErrors (fun _ => validate d)) Return).
Proof. intros H. unfold handleSubmit. rewrite H. reflexivity. Qed.

Lemma handleSubmit_valid (d : RegistrationData) :
  has_keys (validate d) = false ->
  handleSubmit d =
    Perform PreventDefault (SetState (setIsSubmitting true) (awaiting_delay d)).
Proof. intros H. unfold handleSubmit. rewrite H. reflexivity. Qed.

Lemma in_flight_timeout (ms : N) (k : Task) :
  in_flight (AwaitTimeout ms k) -> exists d, k = awaiting_generator d.
Proof.
  intros [d [H|H]]; [|discriminate].
  exists d. unfold awaiting_delay in H. congruence.
Qed.

Lemma in_flight_generate (name title : jsstring) (k : Outcome -> Task) :
  in_flight (AwaitGenerate name title k) -> k = on_settled.
Proof.
  intros [d [H|H]]; [discriminate|].
  unfold awaiting_generator in H. congruence.
Qed.

Lemma consistent_lookup (w : World) (i : nat) (t : Task) :
  consistent w -> suspended w !! i = Some t ->
  suspended w = [t] /\ i = 0%nat /\ in_flight t
  /\ isSubmitting (app w) = true /\ isSuccess (app w) = false.
Proof.
  unfold consistent. intros Hc Hi.
  destruct (suspended w) as [|t0 [|t1 rest]]; [discriminate| |contradiction].
  destruct i as [|i]; [|discriminate].
  simpl in Hi. injection Hi as ->. tauto.
Qed.

Lemma consistent_idle (w : World) :
  consistent w -> isSubmitting (app w) = false -> suspended w = [].
Proof.
  unfold consistent. intros Hc Hs.
  destruct (suspended w) as [|t0 [|t1 rest]]; [reflexivity| |contradiction].
  destruct Hc as (_ & Hc & _). congruence.
Qed.

(** ** What each handler leaves alone *)

Lemma handleInputChange_frame (name : TextField) (value : jsstring)
    (s : AppState) :
  let s' := handleInputChange name value s in
  isSubmitting s' = isSubmitting s /\ isSuccess s' = isSuccess s
  /\ aiMessage s' = aiMessage s
  /\ scriptFile (formData s') = scriptFile (formData s)
  /\ authorPermissionFile (formData s') = authorPermissionFile (formData s)
  /\ isDirectorPlaywright (formData s') = isDirectorPlaywright (formData s).
Proof.
  unfold handleInputChange.
  destruct (truthy_value _); destruct name; simpl; tauto.
Qed.

Lemma handleRadioChange_flags (isDirector : bool) (s : AppState) :
  let s' := handleRadioChange isDirector s in
  isSubmitting s' = isSubmitting s /\ isSuccess s' = isSuccess s
  /\ aiMessage s' = aiMessage s
  /\ scriptFile (formData s') = scriptFile (formData s).
Proof. unfold handleRadioChange. destruct isDirector; simpl; tauto. Qed.

Lemma handleScriptChange_flags (e : FileChangeEvent) (s : AppState) :
  let s' := handleScriptChange e s in
  isSubmitting s' = isSubmitting s /\ isSuccess s' = isSuccess s
  /\ aiMessage s' = aiMessage s.
Proof. unfold handleScriptChange. destruct (script_guard _); simpl; tauto. Qed.

Lemma handlePermissionChange_flags (e : FileChangeEvent) (s : AppState) :
  let s' := handlePermissionChange e s in
  isSubmitting s' = isSubmitting s /\ isSuccess s' = isSuccess s
  /\ aiMessage s' = aiMessage s
  /\ scriptFile (formData s') = scriptFile (formData s).
Proof.
  unfold handlePermissionChange. destruct (permission_guard _); simpl; tauto.
Qed.

Lemma strict_eq_true (a b : jsstring) : strict_eq a b = true <-> a = b.
Proof. unfold strict_eq. apply bool_decide_eq_true. Qed.

Lemma strict_eq_false (a b : jsstring) : strict_eq a b = false <-> a <> b.
Proof. unfold strict_eq. apply bool_decide_eq_false. Qed.

Lemma handleScriptChange_pdf (e : FileChangeEvent) (s : AppState) :
  script_is_pdf s -> script_is_pdf (handleScriptChange e s).
Proof.
  unfold script_is_pdf, handleScriptChange. intros Hs f.
  destruct (script_guard (first_file e)) eqn:Hg; simpl; [apply Hs|].
  intros Hf. rewrite Hf in Hg. simpl in Hg.
  apply negb_false_iff, strict_eq_true in Hg. exact Hg.
Qed.

(** ** The invariant of the event loop *)

Lemma consistent_apply_handler (h : AppState -> AppState) (w : World) :
  isSubmitting (h (app w)) = isSubmitting (app w) ->
  (isSuccess (h (app w)) = true -> isSuccess (app w) = true) ->
  consistent w -> consistent (apply_handler h w).
Proof.
  unfold consistent, apply_handler. simpl. intros Hsub Hsuc.
  destruct (suspended w) as [|t0 [|t1 rest]]; [congruence| |tauto].
  intros (Hin & Hs & Hok). split; [exact Hin|]. split; [congruence|].
  destruct (isSuccess (h (app w))); [|reflexivity].
  rewrite Hsuc in Hok; [discriminate|reflexivity].
Qed.

Lemma step_invariant (w w' : World) (ev : Event) :
  consistent w /\ script_is_pdf (app w) ->
  step w ev = Some w' ->
  consistent w' /\ script_is_pdf (app w').
Proof.
  intros [Hc Hp]. unfold step.
  destruct (rendered (app w) ev) eqn:Hr; [|discriminate].
  destruct ev as [name value|isDirector|e|e| | |i|i settled]; simpl in Hr.
  - intros [= <-].
    pose proof (handleInputChange_frame name value (app w)) as (H1 & H2 & _ & H3 & _).
    split.
    + apply consistent_apply_handler; [exact H1|congruence|exact Hc].
    + unfold script_is_pdf, apply_handler in *. simpl. rewrite H3. exact Hp.
  - intros [= <-].
    pose proof (handleRadioChange_flags isDirector (app w)) as (H1 & H2 & _ & H3).
    split.
    + apply consistent_apply_handler; [exact H1|congruence|exact Hc].
    + unfold script_is_pdf, apply_handler in *. simpl. rewrite H3. exact Hp.
  - intros [= <-].
    pose proof (handleScriptChange_flags e (app w)) as (H1 & H2 & _).
    split.
    + apply consistent_apply_handler; [exact H1|congruence|exact Hc].
    + apply handleScriptChange_pdf, Hp.
  - intros [= <-].
    pose proof (handlePermissionChange_flags e (app w)) as (H1 & H2 & _ & H3).
    split.
    + apply consistent_apply_handler; [exact H1|congruence|exact Hc].
    + unfold script_is_pdf, apply_handler in *. simpl. rewrite H3. exact Hp.
  - apply andb_true_iff in Hr as [Hsuc Hsub].
    apply negb_true_iff in Hsuc, Hsub.
    pose proof (consistent_idle w Hc Hsub) as Hnone.
    destruct (has_keys (validate (formData (app w)))) eqn:Hk.
    + rewrite (handleSubmit_invalid _ Hk). intros [= <-]. simpl.
      unfold consistent, script_is_pdf in *. simpl. rewrite Hnone. tauto.
    + rewrite (handleSubmit_valid _ Hk). intros [= <-]. simpl.
      unfold consistent, script_is_pdf in *. simpl. rewrite Hnone. simpl.
      repeat split; [|exact Hsuc|exact Hp].
      exists (formData (app w)). left. reflexivity.
  - intros [= <-]. split.
    + apply consistent_apply_handler; simpl; [reflexivity|discriminate|exact Hc].
    + unfold script_is_pdf. simpl. discriminate.
  - destruct (suspended w !! i) as [t|] eqn:Hi; [|discriminate].
    destruct (consistent_lookup w i t Hc Hi) as (Hone & -> & Hin & Hsub & Hsuc).
    destruct t as [ | | |ms k| ]; try discriminate.
    intros [= <-].
    destruct (in_flight_timeout ms k Hin) as [d ->].
    rewrite Hone. simpl.
    unfold consistent, script_is_pdf in *. simpl.
    repeat split; [|exact Hsub|exact Hsuc|exact Hp].
    exists d. right. reflexivity.
  - destruct (suspended w !! i) as [t|] eqn:Hi; [|discriminate].
    destruct (consistent_lookup w i t Hc Hi) as (Hone & -> & Hin & Hsub & Hsuc).
    destruct t as [ | | | |name title k]; try discriminate.
    intros [= <-].
    rewrite (in_flight_generate name title k Hin), Hone.
    unfold consistent, script_is_pdf in *.
    destruct settled; simpl; split; [reflexivity|exact Hp|reflexivity|exact Hp].
Qed.

Lemma steps_invariant (evs : list Event) (w w' : World) :
  consistent w /\ script_is_pdf (app w) ->
  steps w evs = Some w' ->
  consistent w' /\ script_is_pdf (app w').
Proof.
  revert w. induction evs as [|ev rest IH]; simpl; intros w Hinv.
  - intros [= <-]. exact Hinv.
  - destruct (step w ev) as [w1|] eqn:Hstep; [|discriminate].
    apply IH. exact (step_invariant w w1 ev Hinv Hstep).
Qed.

Lemma reachable_invariant (w : World) :
  reachable w -> consistent w /\ script_is_pdf (app w).
Proof.
  intros [evs Hevs]. apply (steps_invariant evs initialWorld w); [|exact Hevs].
  split; [reflexivity|]. unfold script_is_pdf. simpl. discriminate.
Qed.

(** ** The validator at submission *)

Lemma validate_size_whitespace (d : RegistrationData) :
  size (validate d) =
    (failed (whitespace_only (directorName d))
     + failed (whitespace_only (playwrightName d))
     + failed (whitespace_only (directorPhone d))
     + failed (whitespace_only (playTitle d))
     + failed (negb (truthy_file (scriptFile d)))
     + failed (negb (isDirectorPlaywright d)
               && negb (truthy_file (authorPermissionFile d))))%nat.
Proof. rewrite validate_size, !truthy_trim, !negb_involutive. reflexivity. Qed.

(** C1: the validator run by a submission attaches an error to a required
    text field exactly when the field is empty or made of white space only
    (that is, empty once trimmed); the six rules are evaluated independently,
    so the error object holds one entry per failed rule; and when the error
    object is not empty the submission stops there: the errors are stored and
    nothing else changes, in particular the submitting flag is not raised and
    no invocation is left suspended. *)
Theorem validator_required_text_fields (w : World) :
  let d := formData (app w) in
  let w' := run (handleSubmit d) w in
  (forall name : TextField,
      whitespace_only (field_value name d) = true
      <-> trim (field_value name d) = [])
  /\ (forall name : TextField,
      validate d !! field_key name = Some (message (required_message name))
      <-> whitespace_only (field_value name d) = true)
  /\ (forall name : TextField,
      validate d !! field_key name = None
      <-> whitespace_only (field_value name d) = false)
  /\ size (validate d) =
       (failed (whitespace_only (directorName d))
        + failed (whitespace_only (playwrightName d))
        + failed (whitespace_only (directorPhone d))
        + failed (whitespace_only (playTitle d))
        + failed (negb (truthy_file (scriptFile d)))
        + failed (negb (isDirectorPlaywright d)
                  && negb (truthy_file (authorPermissionFile d))))%nat
  /\ (validate d <> ∅ ->
      w' = mkWorld (setErrors (fun _ => validate d) (app w)) (suspended w)
             (log w ++ [PreventDefault])
      /\ errors (app w') = validate d
      /\ formData (app w') = d
      /\ isSubmitting (app w') = isSubmitting (app w)
      /\ phase (app w') = phase (app w)
      /\ suspended w' = suspended w).
Proof.
  intros d w'. split; [|split; [|split; [|split]]].
  - intros name. symmetry. apply trim_nil.
  - intros name. rewrite validate_text, truthy_trim.
    destruct (whitespace_only (field_value name d)); simpl;
      split; congruence.
  - intros name. rewrite validate_text, truthy_trim.
    destruct (whitespace_only (field_value name d)); simpl;
      split; congruence.
  - apply validate_size_whitespace.
  - intros Hne. apply has_keys_nonempty in Hne.
    subst w'. rewrite (handleSubmit_invalid d Hne). simpl.
    repeat split.
Qed.

Lemma validator_required_text_fields_witness :
  validate (formData (app initialWorld)) <> ∅
  /\ errors (app (run (handleSubmit (formData (app initialWorld)))
                    initialWorld))
     = validate (formData (app initialWorld)).
Proof.
  assert (Hne : validate (formData (app initialWorld)) <> ∅).
  { apply has_keys_nonempty. vm_compute. reflexivity. }
  split; [exact Hne|].
  destruct (validator_required_text_fields initialWorld)
    as (_ & _ & _ & _ & Habort).
  destruct (Habort Hne) as (_ & Herrors & _).
  exact Herrors.
Defined.

(** C2: with isDirectorPlaywright false and no permission file, the
    validator flags authorPermissionFile; with isDirectorPlaywright true it
    never does, whatever the permission file is. *)
Theorem conditional_permission_rule (d : RegistrationData) :
  (isDirectorPlaywright d = false -> authorPermissionFile d = None ->
   validate d !! "authorPermissionFile"
     = Some (message authorPermissionRequired)
   /\ truthy_value (prop (validate d) "authorPermissionFile") = true)
  /\ (isDirectorPlaywright d = true ->
      validate d !! "authorPermissionFile" = None).
Proof.
  split.
  - intros Hflag Hfile. unfold prop.
    rewrite validate_authorPermissionFile, Hflag, Hfile. split; reflexivity.
  - intros Hflag. rewrite validate_authorPermissionFile, Hflag. reflexivity.
Qed.

Lemma conditional_permission_rule_witness :
  validate (mkRegistrationData [] [] [] [] None false None)
    !! "authorPermissionFile" = Some (message authorPermissionRequired)
  /\ validate (mkRegistrationData [] [] [] [] None true
                 (Some (mkFile (js "note.txt") (js "text/plain"))))
       !! "authorPermissionFile" = None.
Proof.
  split.
  - apply (conditional_permission_rule
             (mkRegistrationData [] [] [] [] None false None));
      reflexivity.
  - apply (conditional_permission_rule
             (mkRegistrationData [] [] [] [] None true
                (Some (mkFile (js "note.txt") (js "text/plain")))));
      reflexivity.
Defined.

(** ** The radio toggle *)

(** C3: toggling to "director is the playwright" sets authorPermissionFile
    to null and makes its error read undefined; toggling to "is not" keeps
    the permission file that was there; either way the flag takes the chosen
    value and the four text fields and the script file keep theirs. *)
Theorem radio_toggle_effect (s : AppState) :
  let yes := handleRadioChange true s in
  let no := handleRadioChange false s in
  (authorPermissionFile (formData yes) = None
   /\ prop (errors yes) "authorPermissionFile" = undefined
   /\ isDirectorPlaywright (formData yes) = true)
  /\ (authorPermissionFile (formData no) = authorPermissionFile (formData s)
      /\ isDirectorPlaywright (formData no) = false
      /\ errors no = errors s)
  /\ (forall isDirector : bool,
        let s' := handleRadioChange isDirector s in
        directorName (formData s') = directorName (formData s)
        /\ playwrightName (formData s') = playwrightName (formData s)
        /\ directorPhone (formData s') = directorPhone (formData s)
        /\ playTitle (formData s') = playTitle (formData s)
        /\ scriptFile (formData s') = scriptFile (formData s)
        /\ isDirectorPlaywright (formData s') = isDirector).
Proof.
  intros yes no. split; [|split].
  - subst yes. unfold handleRadioChange, prop. simpl.
    rewrite lookup_insert_eq. repeat split.
  - subst no. unfold handleRadioChange. simpl. repeat split.
  - intros [|]; unfold handleRadioChange; simpl; repeat split.
Qed.

(** ** The script file guard *)

(** C4: selecting a script whose type is not exactly application/pdf sets
    the scriptFile error and leaves the form data, hence scriptFile, as it
    was; selecting one whose type is application/pdf stores it and makes the
    scriptFile error read undefined. *)
Theorem script_guard_effect (e : FileChangeEvent) (f : File) (s : AppState) :
  first_file e = Some f ->
  let s' := handleScriptChange e s in
  (file_type f <> js "application/pdf" ->
   formData s' = formData s
   /\ scriptFile (formData s') = scriptFile (formData s)
   /\ errors s' !! "scriptFile" = Some (message scriptTypeMessage)
   /\ truthy_value (prop (errors s') "scriptFile") = true)
  /\ (file_type f = js "application/pdf" ->
      scriptFile (formData s') = Some f
      /\ prop (errors s') "scriptFile" = undefined
      /\ formData s' = with_scriptFile (Some f) (formData s)).
Proof.
  intros Hf s'. subst s'. unfold handleScriptChange, prop. rewrite Hf.
  split; intros Ht.
  - apply strict_eq_false in Ht. simpl. rewrite Ht. simpl.
    rewrite lookup_insert_eq. repeat split.
  - apply strict_eq_true in Ht. simpl. rewrite Ht. simpl.
    rewrite lookup_insert_eq. repeat split.
Qed.

Lemma script_guard_effect_witness :
  formData (handleScriptChange (picks notesTxt) (app filledWorld))
    = formData (app filledWorld)
  /\ scriptFile (formData (handleScriptChange (picks playPdf) initialState))
     = Some playPdf.
Proof.
  split.
  - apply (script_guard_effect (picks notesTxt) notesTxt (app filledWorld));
      [reflexivity|].
    apply strict_eq_false. reflexivity.
  - apply (script_guard_effect (picks playPdf) playPdf initialState);
      reflexivity.
Defined.

(** C5: in every state reachable from the mount, a stored script file has
    type application/pdf; the guard of the selection handler is what keeps
    it so: from any state where it holds, selecting any file leaves it
    holding, and a file that the handler newly stores is a PDF. *)
Theorem scriptFile_is_pdf (w : World) :
  reachable w ->
  (forall f, scriptFile (formData (app w)) = Some f ->
             file_type f = js "application/pdf")
  /\ (forall e, script_is_pdf (handleScriptChange e (app w)))
  /\ (forall e f,
        scriptFile (formData (handleScriptChange e (app w))) = Some f ->
        scriptFile (formData (app w)) <> Some f ->
        first_file e = Some f /\ file_type f = js "application/pdf").
Proof.
  intros Hreach. destruct (reachable_invariant w Hreach) as [_ Hpdf].
  split; [exact Hpdf|]. split.
  - intros e. apply handleScriptChange_pdf, Hpdf.
  - intros e f. unfold handleScriptChange.
    destruct (script_guard (first_file e)) eqn:Hg; simpl; [congruence|].
    intros Hf _. split; [exact Hf|].
    rewrite Hf in Hg. simpl in Hg.
    apply negb_false_iff, strict_eq_true in Hg. exact Hg.
Qed.

Lemma scriptFile_is_pdf_witness :
  scriptFile (formData (app filledWorld)) = Some playPdf
  /\ (forall f, scriptFile (formData (app filledWorld)) = Some f ->
                file_type f = js "application/pdf").
Proof.
  split; [reflexivity|].
  apply (scriptFile_is_pdf filledWorld).
  exists fillsForm. reflexivity.
Defined.

(** ** The permission file guard *)

Lemma includes_permissionTypes (type : jsstring) :
  includes permissionTypes type = permission_accepted type.
Proof.
  unfold permission_accepted, normalize_alias, includes, permissionTypes,
    acceptedPermissionTypes.
  cbn [existsb].
  destruct (strict_eq type (js "image/jpg")) eqn:Hjpg.
  - apply strict_eq_true in Hjpg. subst type. reflexivity.
  - rewrite !orb_false_r. reflexivity.
Qed.

(** C6: the permission guard accepts exactly the types that, with image/jpg
    read as image/jpeg, are one of application/pdf, image/jpeg, image/png;
    so image/jpg is accepted.  A rejected selection sets the
    authorPermissionFile error and leaves the form data as it was; an
    accepted one stores the selected file and makes the error read
    undefined. *)
Theorem permission_guard_effect (e : FileChangeEvent) (f : File)
    (s : AppState) :
  first_file e = Some f ->
  let s' := handlePermissionChange e s in
  permission_guard (first_file e) = negb (permission_accepted (file_type f))
  /\ permission_accepted (js "image/jpg") = true
  /\ (permission_accepted (file_type f) = false ->
      formData s' = formData s
      /\ errors s' !! "authorPermissionFile"
         = Some (message permissionTypeMessage)
      /\ truthy_value (prop (errors s') "authorPermissionFile") = true)
  /\ (permission_accepted (file_type f) = true ->
      authorPermissionFile (formData s') = Some f
      /\ prop (errors s') "authorPermissionFile" = undefined
      /\ formData s' = with_authorPermissionFile (Some f) (formData s)).
Proof.
  intros Hf s'. subst s'. unfold handlePermissionChange, prop. rewrite Hf.
  unfold permission_guard. rewrite includes_permissionTypes.
  split; [reflexivity|]. split; [reflexivity|].
  split; intros Hacc; rewrite Hacc; simpl; rewrite lookup_insert_eq;
    repeat split.
Qed.

Lemma permission_guard_effect_witness :
  authorPermissionFile
    (formData (handlePermissionChange (picks scanJpg) initialState))
    = Some scanJpg
  /\ formData (handlePermissionChange (picks notesTxt) initialState)
     = formData initialState.
Proof.
  split.
  - apply (permission_guard_effect (picks scanJpg) scanJpg initialState);
      reflexivity.
  - apply (permission_guard_effect (picks notesTxt) notesTxt initialState);
      reflexivity.
Defined.

(** ** An empty selection *)

(** C10: a change event that carries no file passes both guards; the script
    handler then sets scriptFile to null and the permission handler sets
    authorPermissionFile to null, whatever was stored before, and each makes
    its field's error read undefined. *)
Theorem empty_selection_effect (e : FileChangeEvent) (s : AppState) :
  first_file e = None ->
  (script_guard (first_file e) = false
   /\ scriptFile (formData (handleScriptChange e s)) = None
   /\ prop (errors (handleScriptChange e s)) "scriptFile" = undefined
   /\ formData (handleScriptChange e s) = with_scriptFile None (formData s))
  /\ (permission_guard (first_file e) = false
      /\ authorPermissionFile (formData (handlePermissionChange e s)) = None
      /\ prop (errors (handlePermissionChange e s)) "authorPermissionFile"
         = undefined
      /\ formData (handlePermissionChange e s)
         = with_authorPermissionFile None (formData s)).
Proof.
  intros He. unfold handleScriptChange, handlePermissionChange, prop.
  rewrite He. simpl. rewrite !lookup_insert_eq. repeat split.
Qed.

Lemma empty_selection_effect_witness :
  scriptFile (formData (app filledWorld)) = Some playPdf
  /\ scriptFile (formData (handleScriptChange picksNothing (app filledWorld)))
     = None.
Proof.
  split; [reflexivity|].
  apply (empty_selection_effect picksNothing (app filledWorld)).
  reflexivity.
Defined.

(** ** Two runs from the mount *)

(** Submitting the untouched form stops at validation with five errors. *)
Example submit_empty_form :
  (fun w => (phase (app w), size (errors (app w)), suspended w, log w))
    <$> steps initialWorld [Submit]
  = Some (Idle, 5%nat, [], [PreventDefault]).
Proof. reflexivity. Qed.

(** The filled form, submitted and resolved, shows the success view with
    the generated message stored and the form data still in place. *)
Example submit_filled_form :
  phase (app successWorld) = Success
  /\ aiMessage (app successWorld) = js "Bravo"
  /\ formData (app successWorld) = formData (app filledWorld)
  /\ suspended successWorld = []
  /\ log successWorld =
       [PreventDefault; SetTimeout 1500;
        CallGenerateWelcomeMessage (js "Ann Lee") (js "Dusk")].
Proof. repeat split. Qed.

(** ** The phases of a submission *)

Lemma phase_Success (s : AppState) : phase s = Success <-> isSuccess s = true.
Proof.
  unfold phase. destruct (isSuccess s), (isSubmitting s);
    split; congruence.
Qed.

Lemma phase_Idle (s : AppState) :
  phase s = Idle <-> isSuccess s = false /\ isSubmitting s = false.
Proof.
  unfold phase. destruct (isSuccess s), (isSubmitting s);
    (split;
     [intros H; try discriminate H; split; reflexivity
     |intros [H1 H2]; try discriminate H1; try discriminate H2; reflexivity]).
Qed.

Lemma reachable_Success (w : World) :
  reachable w -> isSuccess (app w) = true ->
  suspended w = [] /\ isSubmitting (app w) = false.
Proof.
  intros Hreach Hsuc. destruct (reachable_invariant w Hreach) as [Hc _].
  unfold consistent in Hc.
  destruct (suspended w) as [|t0 [|t1 rest]]; [tauto| |contradiction].
  destruct Hc as (_ & _ & Hc). congruence.
Qed.

(** C7: in a reachable success view the only event that can occur is the
    reset click, it can occur, and it leads to the idle phase with the form
    data back at its defaults (four empty text fields, no script file, the
    flag true, no permission file), an empty error object and an empty
    stored message. *)
Theorem reset_after_success (w : World) :
  reachable w ->
  phase (app w) = Success ->
  (exists w', step w ResetClick = Some w')
  /\ (forall ev w', step w ev = Some w' ->
        ev = ResetClick
        /\ phase (app w') = Idle
        /\ formData (app w') = mkRegistrationData [] [] [] [] None true None
        /\ errors (app w') = ∅
        /\ aiMessage (app w') = []
        /\ app w' = initialState).
Proof.
  intros Hreach Hphase. apply phase_Success in Hphase.
  destruct (reachable_Success w Hreach Hphase) as [Hnone Hsub].
  split.
  - unfold step. simpl. rewrite Hphase. eauto.
  - intros ev w'. unfold step.
    destruct ev; simpl; rewrite ?Hphase, ?Hnone; simpl; try discriminate.
    intros [= <-].
    unfold apply_handler, resetForm, phase, setErrors, setAiMessage,
      setIsSuccess, setFormData, initialState.
    simpl. rewrite Hsub. repeat split.
Qed.

Lemma reset_after_success_witness :
  phase (app successWorld) = Success
  /\ (exists w', step successWorld ResetClick = Some w').
Proof.
  split; [reflexivity|].
  apply (reset_after_success successWorld); [|reflexivity].
  exists (fillsForm ++ [Submit; TimerFires 0%nat;
                        GeneratorSettles 0%nat (Resolved (js "Bravo"))]).
  reflexivity.
Defined.

(** The first turn of a submission that passes validation. *)
Lemma step_Submit_valid (w : World) :
  isSuccess (app w) = false -> isSubmitting (app w) = false ->
  has_keys (validate (formData (app w))) = false ->
  step w Submit =
    Some (mkWorld (setIsSubmitting true (app w))
            (suspended w ++ [awaiting_delay (formData (app w))])
            ((log w ++ [PreventDefault]) ++ [SetTimeout 1500])).
Proof.
  intros Hsuc Hsub Hk. unfold step. cbn [rendered].
  rewrite Hsuc, Hsub. cbn [negb andb].
  rewrite (handleSubmit_valid _ Hk). reflexivity.
Qed.

(** C8: when the generator rejects, the suspended submission logs the
    failure, raises the generic notice, lowers the submitting flag and ends
    in the idle phase; it was in the submitting phase, so the success view is
    never shown, and the form data, the errors and the stored message are
    what they were.  The two earlier turns of the submission, the submit
    event and the end of the delay, do not touch the form data either and do
    not show the success view.  Run from an idle valid form without other
    events, submit, delay and rejection give back the form data of before
    the submission, with the submitting phase in between. *)
Theorem generator_rejection (w : World) :
  reachable w ->
  (forall i w', step w (GeneratorSettles i Rejected) = Some w' ->
     phase (app w) = Submitting
     /\ phase (app w') = Idle
     /\ formData (app w') = formData (app w)
     /\ errors (app w') = errors (app w)
     /\ aiMessage (app w') = aiMessage (app w)
     /\ suspended w' = []
     /\ log w' = log w ++ [ConsoleError submitFailedLabel;
                           Alert submitFailedNotice])
  /\ (forall w', step w Submit = Some w' ->
        formData (app w') = formData (app w) /\ phase (app w') <> Success)
  /\ (forall i w', step w (TimerFires i) = Some w' ->
        formData (app w') = formData (app w) /\ phase (app w') = Submitting)
  /\ (phase (app w) = Idle -> validate (formData (app w)) = ∅ ->
      exists w1 w2 w3,
        step w Submit = Some w1
        /\ step w1 (TimerFires 0) = Some w2
        /\ step w2 (GeneratorSettles 0 Rejected) = Some w3
        /\ phase (app w1) = Submitting /\ phase (app w2) = Submitting
        /\ phase (app w3) = Idle
        /\ formData (app w1) = formData (app w)
        /\ formData (app w2) = formData (app w)
        /\ formData (app w3) = formData (app w)
        /\ log w3 = log w ++
             [PreventDefault; SetTimeout 1500;
              CallGenerateWelcomeMessage (directorName (formData (app w)))
                (playTitle (formData (app w)));
              ConsoleError submitFailedLabel; Alert submitFailedNotice]).
Proof.
  intros Hreach. destruct (reachable_invariant w Hreach) as [Hc _].
  split; [|split; [|split]].
  - intros i w'. unfold step. simpl.
    destruct (suspended w !! i) as [t|] eqn:Hi; [|discriminate].
    destruct (consistent_lookup w i t Hc Hi) as (Hone & -> & Hin & Hsub & Hsuc).
    destruct t as [ | | | |name title k]; try discriminate.
    rewrite (in_flight_generate name title k Hin), Hone.
    intros [= <-]. simpl. unfold phase. simpl. rewrite Hsuc, Hsub.
    rewrite <- app_assoc. repeat split.
  - intros w'. unfold step. cbn [rendered].
    destruct (negb (isSuccess (app w)) && negb (isSubmitting (app w)))
      eqn:Hr; [|discriminate].
    apply andb_true_iff in Hr as [Hsuc Hsub].
    apply negb_true_iff in Hsuc, Hsub.
    destruct (has_keys (validate (formData (app w)))) eqn:Hk.
    + rewrite (handleSubmit_invalid _ Hk). intros [= <-].
      unfold phase. simpl. rewrite Hsuc, Hsub. split; [reflexivity|discriminate].
    + rewrite (handleSubmit_valid _ Hk). intros [= <-].
      unfold phase. simpl. rewrite Hsuc. split; [reflexivity|discriminate].
  - intros i w'. unfold step. simpl.
    destruct (suspended w !! i) as [t|] eqn:Hi; [|discriminate].
    destruct (consistent_lookup w i t Hc Hi) as (Hone & -> & Hin & Hsub & Hsuc).
    destruct t as [ | | |ms k| ]; try discriminate.
    destruct (in_flight_timeout ms k Hin) as [d ->].
    intros [= <-]. unfold phase. simpl. rewrite Hsuc, Hsub.
    split; reflexivity.
  - intros Hidle Hvalid. apply phase_Idle in Hidle as [Hsuc Hsub].
    pose proof (consistent_idle w Hc Hsub) as Hnone.
    assert (Hk : has_keys (validate (formData (app w))) = false).
    { rewrite Hvalid. reflexivity. }
    eexists _, _, _.
    split; [apply (step_Submit_valid w Hsuc Hsub Hk)|].
    rewrite Hnone.
    split; [reflexivity|]. split; [reflexivity|].
    unfold phase. simpl. rewrite Hsuc. simpl.
    rewrite <- !app_assoc. repeat split.
Qed.

Lemma generator_rejection_witness :
  (exists w',
      step submittedWorld (GeneratorSettles 0 Rejected) = Some w'
      /\ formData (app w') = formData (app submittedWorld)
      /\ phase (app w') = Idle)
  /\ phase (app filledWorld) = Idle
  /\ validate (formData (app filledWorld)) = ∅
  /\ (exists w1 w2 w3,
        step filledWorld Submit = Some w1
        /\ step w1 (TimerFires 0) = Some w2
        /\ step w2 (GeneratorSettles 0 Rejected) = Some w3
        /\ formData (app w3) = formData (app filledWorld)).
Proof.
  split; [|split; [reflexivity|split; [reflexivity|]]].
  - assert (Hreach : reachable submittedWorld).
    { exists (fillsForm ++ [Submit; TimerFires 0%nat]). reflexivity. }
    destruct (generator_rejection submittedWorld Hreach) as [Hstep _].
    eexists. split; [reflexivity|].
    destruct (Hstep 0%nat _ eq_refl) as (_ & Hidle & Hdata & _).
    split; [exact Hdata|exact Hidle].
  - assert (Hreach : reachable filledWorld).
    { exists fillsForm. reflexivity. }
    destruct (generator_rejection filledWorld Hreach) as (_ & _ & _ & Hrun).
    destruct (Hrun eq_refl eq_refl)
      as (w1 & w2 & w3 & H1 & H2 & H3 & _ & _ & _ & _ & _ & Hdata & _).
    exists w1, w2, w3. repeat split; assumption.
Defined.

(** C9: in every reachable state at most one submission is suspended; one is
    suspended exactly when the submitting flag is up, and then the submit
    control delivers no event; a suspended submission can always take its
    next turn, and the turn in which the generator settles, resolved or
    rejected, lowers the flag and leaves nothing suspended. *)
Theorem single_submission_in_flight (w : World) :
  reachable w ->
  (length (suspended w) <= 1)%nat
  /\ (suspended w <> [] <-> isSubmitting (app w) = true)
  /\ (isSubmitting (app w) = true ->
      rendered (app w) Submit = false /\ step w Submit = None)
  /\ (suspended w <> [] ->
      (exists w', step w (TimerFires 0) = Some w')
      \/ (forall settled, exists w',
            step w (GeneratorSettles 0 settled) = Some w'))
  /\ (forall i settled w',
        step w (GeneratorSettles i settled) = Some w' ->
        isSubmitting (app w') = false /\ suspended w' = []).
Proof.
  intros Hreach. destruct (reachable_invariant w Hreach) as [Hc _].
  split; [|split; [|split; [|split]]].
  - unfold consistent in Hc.
    destruct (suspended w) as [|t0 [|t1 rest]]; simpl; [lia|lia|contradiction].
  - unfold consistent in Hc.
    destruct (suspended w) as [|t0 [|t1 rest]]; [| |contradiction].
    + rewrite Hc. split; [contradiction|discriminate].
    + destruct Hc as (_ & Hs & _). split; [intros _; exact Hs|discriminate].
  - intros Hsub. unfold step. simpl. rewrite Hsub, andb_false_r.
    split; reflexivity.
  - intros Hsome. unfold consistent in Hc. unfold step. simpl.
    destruct (suspended w) as [|t0 [|t1 rest]]; [contradiction| |contradiction].
    destruct Hc as ([d [-> | ->]] & _). 
    + left. simpl. eauto.
    + right. intros settled. simpl. eauto.
  - intros i settled w'. unfold step. simpl.
    destruct (suspended w !! i) as [t|] eqn:Hi; [|discriminate].
    destruct (consistent_lookup w i t Hc Hi) as (Hone & -> & Hin & _).
    destruct t as [ | | | |name title k]; try discriminate.
    rewrite (in_flight_generate name title k Hin), Hone.
    intros [= <-]. destruct settled; simpl; split; reflexivity.
Qed.

Lemma single_submission_in_flight_witness :
  isSubmitting (app submittedWorld) = true
  /\ length (suspended submittedWorld) = 1%nat
  /\ step submittedWorld Submit = None.
Proof.
  split; [reflexivity|]. split; [reflexivity|].
  apply (single_submission_in_flight submittedWorld); [|reflexivity].
  exists (fillsForm ++ [Submit; TimerFires 0%nat]). reflexivity.
Defined.

(** * Further properties of the handlers and of the event loop *)

(** ** Turns of the event loop, one by one *)

Lemma steps_app (evs1 evs2 : list Event) (w : World) :
  steps w (evs1 ++ evs2) =
    match steps w evs1 with
    | Some w1 => steps w1 evs2
    | None => None
    end.
Proof.
  revert w. induction evs1 as [|ev rest IH]; simpl; intros w; [reflexivity|].
  destruct (step w ev) as [w1|]; [apply IH|reflexivity].
Qed.

Lemma reachable_step (w w' : World) (ev : Event) :
  reachable w -> step w ev = Some w' -> reachable w'.
Proof.
  intros [evs Hevs] Hstep. exists (evs ++ [ev]).
  rewrite steps_app, Hevs. simpl. rewrite Hstep. reflexivity.
Qed.

Lemma reachable_steps (evs : list Event) (w w' : World) :
  reachable w -> steps w evs = Some w' -> reachable w'.
Proof.
  intros [evs0 Hevs0] Hsteps. exists (evs0 ++ evs).
  rewrite steps_app, Hevs0. exact Hsteps.
Qed.

(** Induction over the reachable pages. *)
Lemma reachable_ind (P : World -> Prop) :
  P initialWorld ->
  (forall w ev w', reachable w -> P w -> step w ev = Some w' -> P w') ->
  forall w, reachable w -> P w.
Proof.
  intros Hinit Hstep w [evs Hevs].
  assert (Hgen : forall evs w0 w1,
             reachable w0 -> P w0 -> steps w0 evs = Some w1 -> P w1).
  { clear w evs Hevs. induction evs as [|ev rest IH]; simpl; intros w0 w1 Hr Hp.
    - intros [= <-]. exact Hp.
    - destruct (step w0 ev) as [w2|] eqn:H2; [|discriminate].
      apply IH; [exact (reachable_step w0 w2 ev Hr H2)|].
      exact (Hstep w0 ev w2 Hr Hp H2). }
  apply (Hgen evs initialWorld w); [exists []; reflexivity|exact Hinit|exact Hevs].
Qed.

Lemma step_input (w w' : World) (ev : Event) :
  is_input_event ev = true -> step w ev = Some w' ->
  exists h,
    w' = apply_handler h w
    /\ match ev with
       | InputChange name value => h = handleInputChange name value
       | RadioClick isDirector => h = handleRadioChange isDirector
       | ScriptChange e => h = handleScriptChange e
       | PermissionChange e =>
           h = handlePermissionChange e
           /\ isDirectorPlaywright (formData (app w)) = false
       | _ => False
       end
    /\ isSuccess (app w) = false.
Proof.
  unfold step. destruct ev; try discriminate; intros _; simpl;
    destruct (isSuccess (app w)); simpl; try discriminate.
  - intros [= <-]. eauto.
  - intros [= <-]. eauto.
  - intros [= <-]. eauto.
  - destruct (isDirectorPlaywright (formData (app w))); simpl;
      [discriminate|].
    intros [= <-]. eauto.
Qed.

Lemma step_Submit (w w' : World) :
  step w Submit = Some w' ->
  isSuccess (app w) = false /\ isSubmitting (app w) = false
  /\ w' =
     if has_keys (validate (formData (app w)))
     then mkWorld (setErrors (fun _ => validate (formData (app w))) (app w))
            (suspended w) (log w ++ [PreventDefault])
     else mkWorld (setIsSubmitting true (app w))
            (suspended w ++ [awaiting_delay (formData (app w))])
            ((log w ++ [PreventDefault]) ++ [SetTimeout 1500]).
Proof.
  unfold step. cbn [rendered].
  destruct (isSuccess (app w)); [discriminate|].
  destruct (isSubmitting (app w)); [discriminate|]. cbn [negb andb].
  destruct (has_keys (validate (formData (app w)))) eqn:Hk.
  - rewrite (handleSubmit_invalid _ Hk). intros [= <-]. repeat split.
  - rewrite (handleSubmit_valid _ Hk). intros [= <-]. repeat split.
Qed.

Lemma step_ResetClick (w w' : World) :
  step w ResetClick = Some w' ->
  isSuccess (app w) = true /\ w' = apply_handler resetForm w.
Proof.
  unfold step. cbn [rendered]. destruct (isSuccess (app w)); [|discriminate].
  intros [= <-]. split; reflexivity.
Qed.

Lemma step_TimerFires (w w' : World) (i : nat) :
  consistent w -> step w (TimerFires i) = Some w' ->
  exists d,
    suspended w = [awaiting_delay d] /\ i = 0%nat
    /\ isSubmitting (app w) = true /\ isSuccess (app w) = false
    /\ w' = mkWorld (app w) [awaiting_generator d]
              (log w ++ [CallGenerateWelcomeMessage (directorName d)
                           (playTitle d)]).
Proof.
  intros Hc. unfold step. simpl.
  destruct (suspended w !! i) as [t|] eqn:Hi; [|discriminate].
  destruct (consistent_lookup w i t Hc Hi) as (Hone & -> & Hin & Hsub & Hsuc).
  destruct t as [ | | |ms k| ]; try discriminate.
  destruct Hin as [d [Hd|Hd]]; [|discriminate].
  unfold awaiting_delay in Hd. injection Hd as -> ->.
  intros [= <-]. exists d. rewrite Hone. repeat split; assumption.
Qed.

Lemma step_GeneratorSettles (w w' : World) (i : nat) (settled : Outcome) :
  consistent w -> step w (GeneratorSettles i settled) = Some w' ->
  exists d,
    suspended w = [awaiting_generator d] /\ i = 0%nat
    /\ isSubmitting (app w) = true /\ isSuccess (app w) = false
    /\ w' = run (on_settled settled) (mkWorld (app w) [] (log w)).
Proof.
  intros Hc. unfold step. simpl.
  destruct (suspended w !! i) as [t|] eqn:Hi; [|discriminate].
  destruct (consistent_lookup w i t Hc Hi) as (Hone & -> & Hin & Hsub & Hsuc).
  destruct t as [ | | | |name title k]; try discriminate.
  destruct Hin as [d [Hd|Hd]]; [discriminate|].
  unfold awaiting_generator in Hd. injection Hd as -> -> ->.
  intros [= <-]. exists d. rewrite Hone. repeat split; assumption.
Qed.

(** ** Typing in a text field *)

Lemma field_key_inj (a b : TextField) : field_key a = field_key b -> a = b.
Proof. destruct a, b; simpl; intros H; try reflexivity; discriminate H. Qed.

Lemma with_text_same (name : TextField) (value : jsstring)
    (d : RegistrationData) :
  field_value name (with_text name value d) = value.
Proof. destruct name; reflexivity. Qed.

Lemma with_text_other (name other : TextField) (value : jsstring)
    (d : RegistrationData) :
  other <> name ->
  field_value other (with_text name value d) = field_value other d.
Proof. destruct name, other; intros H; try reflexivity; contradiction H; reflexivity. Qed.

(** X1: typing [value] in a text field stores it under that field and
    leaves the three other text fields, the two files and the flag alone;
    afterwards the field's error does not show, whatever was typed; the
    entries under every other key are untouched, and when the field had no
    showing error the error object is not written at all. *)
Theorem input_change_effect (name : TextField) (value : jsstring)
    (s : AppState) :
  let s' := handleInputChange name value s in
  field_value name (formData s') = value
  /\ (forall other, other <> name ->
        field_value other (formData s') = field_value other (formData s))
  /\ scriptFile (formData s') = scriptFile (formData s)
  /\ isDirectorPlaywright (formData s') = isDirectorPlaywright (formData s)
  /\ authorPermissionFile (formData s') = authorPermissionFile (formData s)
  /\ truthy_value (prop (errors s') (field_key name)) = false
  /\ (forall key, key <> field_key name -> errors s' !! key = errors s !! key)
  /\ (truthy_value (prop (errors s) (field_key name)) = false ->
      errors s' = errors s).
Proof.
  intros s'. subst s'. unfold handleInputChange.
  destruct (truthy_value (prop (errors s) (field_key name))) eqn:Hshown;
    simpl.
  - split; [apply with_text_same|].
    split; [intros other Hne; apply with_text_other, Hne|].
    split; [destruct name; reflexivity|].
    split; [destruct name; reflexivity|].
    split; [destruct name; reflexivity|].
    split; [unfold prop; rewrite lookup_insert_eq; reflexivity|].
    split; [|discriminate].
    intros key Hne. apply lookup_insert_ne. congruence.
  - split; [apply with_text_same|].
    split; [intros other Hne; apply with_text_other, Hne|].
    split; [destruct name; reflexivity|].
    split; [destruct name; reflexivity|].
    split; [destruct name; reflexivity|].
    split; [exact Hshown|]. split; reflexivity.
Qed.

Lemma input_change_effect_witness :
  truthy_value (prop (errors (app refusedWorld)) "directorName") = true
  /\ errors (handleInputChange DirectorName [0x20] (app refusedWorld))
       !! "playTitle"
     = errors (app refusedWorld) !! "playTitle"
  /\ field_value PlayTitle
       (formData (handleInputChange DirectorName [0x20] (app refusedWorld)))
     = field_value PlayTitle (formData (app refusedWorld))
  /\ errors (handleInputChange DirectorName [0x20] initialState)
     = errors initialState.
Proof.
  split; [reflexivity|].
  destruct (input_change_effect DirectorName [0x20] (app refusedWorld))
    as (_ & Hother & _ & _ & _ & _ & Hkeys & _).
  destruct (input_change_effect DirectorName [0x20] initialState)
    as (_ & _ & _ & _ & _ & _ & _ & Hidle).
  split; [apply Hkeys; discriminate|].
  split; [apply Hother; discriminate|].
  apply Hidle. reflexivity.
Defined.

(** X2: typing twice in the same field is the same as typing the last value
    once, and typing in two different fields gives the same state in either
    order. *)
Theorem input_change_composition (a b : TextField) (u v : jsstring)
    (s : AppState) :
  handleInputChange a v (handleInputChange a u s) = handleInputChange a v s
  /\ (a <> b ->
      handleInputChange a u (handleInputChange b v s)
      = handleInputChange b v (handleInputChange a u s)).
Proof.
  split.
  - unfold handleInputChange at 2 3.
    destruct (truthy_value (prop (errors s) (field_key a))) eqn:Hshown.
    + unfold handleInputChange. simpl. unfold prop at 1.
      rewrite lookup_insert_eq. simpl.
      unfold setErrors, setFormData. simpl.
      destruct a; reflexivity.
    + unfold handleInputChange. simpl. rewrite Hshown.
      unfold setFormData. simpl. destruct a; reflexivity.
  - intros Hne.
    assert (Hk : field_key a <> field_key b).
    { intros H. apply Hne, field_key_inj, H. }
    unfold handleInputChange.
    destruct (truthy_value (prop (errors s) (field_key a))) eqn:Ha;
      destruct (truthy_value (prop (errors s) (field_key b))) eqn:Hb;
      simpl; unfold prop in *;
      rewrite ?lookup_insert_ne by congruence; rewrite ?Ha, ?Hb;
      unfold setErrors, setFormData; simpl; f_equal;
      try (apply insert_insert_ne; congruence);
      destruct a, b; try reflexivity; contradiction Hne; reflexivity.
Qed.

Lemma input_change_composition_witness :
  handleInputChange DirectorName (js "Ann")
    (handleInputChange PlayTitle (js "Dusk") (app refusedWorld))
  = handleInputChange PlayTitle (js "Dusk")
      (handleInputChange DirectorName (js "Ann") (app refusedWorld)).
Proof.
  apply (input_change_composition DirectorName PlayTitle (js "Ann")
           (js "Dusk") (app refusedWorld)).
  discriminate.
Defined.

(** ** The validator as a whole *)

Lemma assign_if_lookup (cond : bool) (key text : string) (m : ErrorMap)
    (k : string) (v : ErrorValue) :
  assign_if cond key text m !! k = Some v ->
  (k = key /\ v = message text) \/ m !! k = Some v.
Proof.
  unfold assign_if. destruct cond; [|tauto].
  intros H. apply lookup_insert_Some in H as [[<- <-]|[_ H]]; tauto.
Qed.

Lemma validate_empty_passes (d : RegistrationData) :
  validate d = ∅ <-> passes d.
Proof.
  rewrite <- map_size_empty_iff, validate_size_whitespace. unfold passes.
  destruct (whitespace_only (directorName d)),
    (whitespace_only (playwrightName d)),
    (whitespace_only (directorPhone d)),
    (whitespace_only (playTitle d)),
    (scriptFile d), (isDirectorPlaywright d), (authorPermissionFile d);
    simpl; split; intros H; try discriminate H; try lia;
    try (repeat split; (discriminate || (left; reflexivity)
                        || (right; discriminate)));
    destruct H as (H1 & H2 & H3 & H4 & H5 & [H6|H6]);
    try discriminate; try (contradiction H5; reflexivity);
    try (contradiction H6; reflexivity).
Qed.

(** X3: the validator returns the empty object exactly when the four text
    fields are not blank, a script file is present and, if the director is
    not the playwright, a permission file is present; the type of a present
    file is not looked at.  Every entry it returns sits under one of the six
    field names and holds a message that is not empty, so it shows. *)
Theorem validate_characterisation (d : RegistrationData) :
  (validate d = ∅ <-> passes d)
  /\ (forall key v, validate d !! key = Some v ->
        key ∈ errorKeys
        /\ exists text, v = message text /\ truthy_msg text = true)
  /\ (forall script script' permission permission',
        validate (with_scriptFile (Some script)
                    (with_authorPermissionFile (Some permission) d))
        = validate (with_scriptFile (Some script')
                      (with_authorPermissionFile (Some permission') d))).
Proof.
  split; [apply validate_empty_passes|]. split.
  - intros key v H. unfold validate in H. cbn zeta in H.
    unfold errorKeys.
    repeat (apply assign_if_lookup in H as [[-> ->]|H]);
      try (split; [set_solver|eexists; split; reflexivity]).
    rewrite lookup_empty in H. discriminate.
  - intros script script' permission permission'. reflexivity.
Qed.

Lemma validate_characterisation_witness :
  validate (formData (app filledWorld)) = ∅
  /\ passes (formData (app filledWorld))
  /\ "directorName" ∈ errorKeys.
Proof.
  destruct (validate_characterisation (formData (app filledWorld)))
    as (Hiff & Hkeys & _).
  destruct (validate_characterisation defaultFormData) as (_ & Hdefault & _).
  split; [reflexivity|].
  split; [apply Hiff; reflexivity|].
  apply (Hdefault "directorName" (message directorNameRequired)).
  reflexivity.
Defined.

(** ** A submit event *)

(** X4: a submit event in the idle phase raises the submitting flag exactly
    when the form data pass the validator, and stays idle otherwise.  When
    it goes ahead it leaves the form data and the error object as they were
    (errors shown before are not cleared), suspends one invocation and
    starts the delay; the generator is not called in that turn. *)
Theorem submit_goes_ahead_iff_valid (w w' : World) :
  step w Submit = Some w' ->
  phase (app w) = Idle
  /\ (phase (app w') = Submitting <-> validate (formData (app w)) = ∅)
  /\ (phase (app w') = Idle <-> validate (formData (app w)) <> ∅)
  /\ (validate (formData (app w)) = ∅ ->
      formData (app w') = formData (app w)
      /\ errors (app w') = errors (app w)
      /\ suspended w' = suspended w ++ [awaiting_delay (formData (app w))]
      /\ log w' = log w ++ [PreventDefault; SetTimeout 1500]).
Proof.
  intros Hstep. destruct (step_Submit w w' Hstep) as (Hsuc & Hsub & ->).
  split; [apply phase_Idle; tauto|].
  destruct (has_keys (validate (formData (app w)))) eqn:Hk.
  - assert (Hne : validate (formData (app w)) <> ∅)
      by (apply has_keys_nonempty, Hk).
    unfold phase. simpl. rewrite Hsuc, Hsub.
    split; [split; [discriminate|contradiction]|].
    split; [tauto|contradiction].
  - assert (He : validate (formData (app w)) = ∅).
    { destruct (decide (validate (formData (app w)) = ∅)) as [E|E]; [exact E|].
      apply has_keys_nonempty in E. congruence. }
    unfold phase. simpl. rewrite Hsuc.
    split; [tauto|].
    split; [split; [discriminate|contradiction]|].
    intros _. rewrite <- app_assoc. repeat split.
Qed.

Lemma submit_goes_ahead_iff_valid_witness :
  (exists w', step filledWorld Submit = Some w'
              /\ phase (app w') = Submitting
              /\ errors (app w') = errors (app filledWorld))
  /\ (exists w', step initialWorld Submit = Some w'
                 /\ phase (app w') = Idle).
Proof.
  split.
  - eexists. split; [reflexivity|].
    destruct (submit_goes_ahead_iff_valid filledWorld _ eq_refl)
      as (_ & Hiff & _ & Hvalid).
    split; [apply Hiff; reflexivity|].
    apply (Hvalid eq_refl).
  - eexists. split; [reflexivity|].
    destruct (submit_goes_ahead_iff_valid initialWorld _ eq_refl)
      as (_ & _ & Hiff & _).
    apply Hiff. apply has_keys_nonempty. reflexivity.
Defined.

(** ** The generator resolves *)

(** X5: when the generator resolves with a text, the suspended submission
    stores that text, shows the success view and lowers the submitting
    flag; it raises no notice and performs no other effect, and the form
    data (still displayed by the success view) and the error object are
    what they were. *)
Theorem generator_resolution (w : World) :
  reachable w ->
  forall i text w',
    step w (GeneratorSettles i (Resolved text)) = Some w' ->
    phase (app w) = Submitting
    /\ phase (app w') = Success
    /\ aiMessage (app w') = text
    /\ isSubmitting (app w') = false
    /\ formData (app w') = formData (app w)
    /\ errors (app w') = errors (app w)
    /\ suspended w' = []
    /\ log w' = log w.
Proof.
  intros Hreach i text w' Hstep.
  destruct (reachable_invariant w Hreach) as [Hc _].
  destruct (step_GeneratorSettles w w' i _ Hc Hstep)
    as (d & _ & _ & Hsub & Hsuc & ->).
  unfold phase. simpl. rewrite Hsuc, Hsub. repeat split.
Qed.

Lemma generator_resolution_witness :
  exists w',
    step submittedWorld (GeneratorSettles 0 (Resolved (js "Bravo"))) = Some w'
    /\ phase (app w') = Success
    /\ aiMessage (app w') = js "Bravo".
Proof.
  eexists. split; [reflexivity|].
  assert (Hreach : reachable submittedWorld).
  { exists (fillsForm ++ [Submit; TimerFires 0%nat]). reflexivity. }
  destruct (generator_resolution submittedWorld Hreach 0%nat (js "Bravo") _
              eq_refl) as (_ & Hphase & Htext & _).
  split; [exact Hphase|exact Htext].
Defined.

(** ** Editing while a submission is suspended *)

Lemma input_events_frame (evs : list Event) (w w' : World) :
  forallb is_input_event evs = true ->
  steps w evs = Some w' ->
  suspended w' = suspended w /\ log w' = log w
  /\ isSubmitting (app w') = isSubmitting (app w)
  /\ isSuccess (app w') = isSuccess (app w)
  /\ aiMessage (app w') = aiMessage (app w).
Proof.
  revert w. induction evs as [|ev rest IH]; simpl; intros w Hall.
  - intros [= <-]. repeat split.
  - apply andb_true_iff in Hall as [Hev Hrest].
    destruct (step w ev) as [w1|] eqn:Hstep; [|discriminate].
    intros Hsteps. destruct (IH w1 Hrest Hsteps) as (-> & -> & -> & -> & ->).
    destruct (step_input w w1 ev Hev Hstep) as (h & -> & Hh & _).
    simpl. destruct ev; try contradiction.
    + subst h.
      pose proof (handleInputChange_frame name value (app w)) as H. simpl in H.
      tauto.
    + subst h.
      pose proof (handleRadioChange_flags isDirector (app w)) as H.
      simpl in H. tauto.
    + subst h.
      pose proof (handleScriptChange_flags e (app w)) as H. simpl in H.
      tauto.
    + destruct Hh as [-> _].
      pose proof (handlePermissionChange_flags e (app w)) as H. simpl in H.
      tauto.
Qed.

(** X6: the generator is called with the director name and the play title
    the form held when the submit event occurred: whatever the user types,
    toggles or selects while the delay runs changes the form data and not
    the arguments of the call. *)
Theorem generator_gets_submit_time_values (w w' : World) (evs : list Event) :
  reachable w ->
  forallb is_input_event evs = true ->
  steps w (Submit :: evs ++ [TimerFires 0]) = Some w' ->
  validate (formData (app w)) = ∅
  /\ log w' = log w ++
       [PreventDefault; SetTimeout 1500;
        CallGenerateWelcomeMessage (directorName (formData (app w)))
          (playTitle (formData (app w)))]
  /\ (exists w1, steps w (Submit :: evs) = Some w1
                 /\ formData (app w') = formData (app w1)).
Proof.
  intros Hreach Hall. simpl.
  destruct (step w Submit) as [w1|] eqn:H1; [|discriminate].
  rewrite steps_app.
  destruct (steps w1 evs) as [w2|] eqn:H2; [|discriminate].
  simpl. destruct (step w2 (TimerFires 0)) as [w3|] eqn:H3; [|discriminate].
  intros [= <-].
  pose proof (reachable_step w w1 Submit Hreach H1) as Hr1.
  pose proof (reachable_steps evs w1 w2 Hr1 H2) as Hr2.
  destruct (reachable_invariant w Hreach) as [Hc _].
  destruct (reachable_invariant w2 Hr2) as [Hc2 _].
  destruct (input_events_frame evs w1 w2 Hall H2) as (Hs2 & Hl2 & _).
  destruct (step_TimerFires w2 w3 0%nat Hc2 H3) as (d & Hd & _ & Hsub2 & _ & ->).
  destruct (step_Submit w w1 H1) as (Hsuc & Hsub & Hw1).
  pose proof (consistent_idle w Hc Hsub) as Hnone.
  destruct (has_keys (validate (formData (app w)))) eqn:Hk.
  - subst w1. simpl in Hs2. rewrite Hnone in Hs2. rewrite Hs2 in Hd.
    discriminate.
  - subst w1. simpl in Hs2, Hl2. rewrite Hnone in Hs2. rewrite Hs2 in Hd.
    simpl in Hd. unfold awaiting_delay, awaiting_generator in Hd.
    injection Hd as Hname Htitle.
    split.
    { destruct (decide (validate (formData (app w)) = ∅)) as [E|E]; [exact E|].
      apply has_keys_nonempty in E. congruence. }
    split.
    { simpl. rewrite Hl2, <- Hname, <- Htitle, <- !app_assoc. reflexivity. }
    exists w2. split; reflexivity.
Qed.

Lemma generator_gets_submit_time_values_witness :
  exists w',
    steps filledWorld (Submit :: editsDuringDelay ++ [TimerFires 0]) = Some w'
    /\ directorName (formData (app w')) = js "Zed"
    /\ log w' = log filledWorld ++
         [PreventDefault; SetTimeout 1500;
          CallGenerateWelcomeMessage (js "Ann Lee") (js "Dusk")].
Proof.
  eexists. split; [reflexivity|]. split; [reflexivity|].
  assert (Hreach : reachable filledWorld) by (exists fillsForm; reflexivity).
  destruct (generator_gets_submit_time_values filledWorld _ editsDuringDelay
              Hreach eq_refl eq_refl) as (_ & Hlog & _).
  exact Hlog.
Defined.

(** ** Sequences of toggles and selections *)

(** X7: answering yes and then no does not bring the permission file back:
    the file is gone whatever it was; answering the same twice is the same
    as answering once, and answering no and then yes is the same as
    answering yes. *)
Theorem radio_toggle_composition (s : AppState) :
  authorPermissionFile
    (formData (handleRadioChange false (handleRadioChange true s))) = None
  /\ (forall isDirector : bool,
        handleRadioChange isDirector (handleRadioChange isDirector s)
        = handleRadioChange isDirector s)
  /\ handleRadioChange true (handleRadioChange false s)
     = handleRadioChange true s.
Proof.
  split; [reflexivity|]. split.
  - intros [|]; unfold handleRadioChange, setErrors, setFormData; simpl;
      [|reflexivity].
    rewrite insert_insert_eq. reflexivity.
  - reflexivity.
Qed.

(** X8: the two file pickers do not interfere: selecting a script leaves the
    permission file and the entry under its key alone, selecting a
    permission leaves the script file and the entry under its key alone, and
    the two selections give the same state in either order. *)
Theorem file_selections_independent (e1 e2 : FileChangeEvent)
    (s : AppState) :
  (authorPermissionFile (formData (handleScriptChange e1 s))
   = authorPermissionFile (formData s)
   /\ errors (handleScriptChange e1 s) !! "authorPermissionFile"
      = errors s !! "authorPermissionFile")
  /\ (scriptFile (formData (handlePermissionChange e2 s))
      = scriptFile (formData s)
      /\ errors (handlePermissionChange e2 s) !! "scriptFile"
         = errors s !! "scriptFile")
  /\ handleScriptChange e1 (handlePermissionChange e2 s)
     = handlePermissionChange e2 (handleScriptChange e1 s).
Proof.
  assert (Hk : "scriptFile" <> "authorPermissionFile") by discriminate.
  unfold handleScriptChange, handlePermissionChange.
  destruct (script_guard (first_file e1)),
    (permission_guard (first_file e2)); simpl;
    rewrite ?lookup_insert_ne by congruence;
    (split; [split; reflexivity|]); (split; [split; reflexivity|]);
    unfold setErrors, setFormData; simpl; f_equal;
    apply insert_insert_ne; congruence.
Qed.

(** ** Invariants of the permission upload *)

Lemma handleInputChange_permission_error (name : TextField)
    (value : jsstring) (s : AppState) :
  prop (errors (handleInputChange name value s)) "authorPermissionFile"
  = prop (errors s) "authorPermissionFile".
Proof.
  unfold handleInputChange, prop.
  destruct (truthy_value _); simpl; [|reflexivity].
  rewrite lookup_insert_ne; [reflexivity|]. destruct name; discriminate.
Qed.

Lemma handleScriptChange_permission (e : FileChangeEvent) (s : AppState) :
  authorPermissionFile (formData (handleScriptChange e s))
  = authorPermissionFile (formData s)
  /\ isDirectorPlaywright (formData (handleScriptChange e s))
     = isDirectorPlaywright (formData s)
  /\ prop (errors (handleScriptChange e s)) "authorPermissionFile"
     = prop (errors s) "authorPermissionFile".
Proof.
  unfold handleScriptChange, prop.
  destruct (script_guard _); simpl; rewrite lookup_insert_ne by discriminate;
    repeat split.
Qed.

Lemma handlePermissionChange_flag (e : FileChangeEvent) (s : AppState) :
  isDirectorPlaywright (formData (handlePermissionChange e s))
  = isDirectorPlaywright (formData s).
Proof.
  unfold handlePermissionChange. destruct (permission_guard _); reflexivity.
Qed.

Lemma handlePermissionChange_accepted (e : FileChangeEvent) (s : AppState) :
  permission_is_accepted s ->
  permission_is_accepted (handlePermissionChange e s).
Proof.
  unfold permission_is_accepted, handlePermissionChange. intros Hs f.
  destruct (permission_guard (first_file e)) eqn:Hg; simpl; [apply Hs|].
  intros Hf. rewrite Hf in Hg. simpl in Hg.
  apply negb_false_iff in Hg. exact Hg.
Qed.

Lemma on_settled_app (settled : Outcome) (w : World) :
  formData (app (run (on_settled settled) w)) = formData (app w)
  /\ errors (app (run (on_settled settled) w)) = errors (app w).
Proof. destruct settled; simpl; split; reflexivity. Qed.

Lemma reachable_permission (w : World) :
  reachable w ->
  permission_inapplicable (app w) /\ permission_is_accepted (app w).
Proof.
  apply (reachable_ind
           (fun w => permission_inapplicable (app w)
                     /\ permission_is_accepted (app w))).
  - split; [split; reflexivity|]. intros f. simpl. discriminate.
  - clear w. intros w ev w' Hreach [Hin Hacc] Hstep.
    destruct (reachable_invariant w Hreach) as [Hc _].
    unfold permission_inapplicable, permission_is_accepted in *.
    destruct ev as [name value|isDirector|e|e| | |i|i settled].
    + destruct (step_input w w' (InputChange name value) eq_refl Hstep) as (h & -> & -> & _).
      simpl.
      pose proof (handleInputChange_frame name value (app w))
        as (_ & _ & _ & _ & Hfile & Hflag).
      rewrite handleInputChange_permission_error, Hfile, Hflag.
      split; assumption.
    + destruct (step_input w w' (RadioClick isDirector) eq_refl Hstep) as (h & -> & -> & _).
      simpl. unfold handleRadioChange, prop.
      destruct isDirector; simpl.
      * rewrite lookup_insert_eq.
        split; [intros _; split; reflexivity|discriminate].
      * split; [discriminate|exact Hacc].
    + destruct (step_input w w' (ScriptChange e) eq_refl Hstep) as (h & -> & -> & _).
      simpl.
      destruct (handleScriptChange_permission e (app w)) as (-> & -> & ->).
      split; assumption.
    + destruct (step_input w w' (PermissionChange e) eq_refl Hstep) as (h & -> & [-> Hno] & _).
      simpl. rewrite handlePermissionChange_flag, Hno.
      split; [discriminate|].
      exact (handlePermissionChange_accepted e (app w) Hacc).
    + destruct (step_Submit w w' Hstep) as (_ & _ & ->).
      destruct (has_keys (validate (formData (app w)))); simpl;
        [|split; assumption].
      split; [|exact Hacc].
      intros Hflag. split; [apply Hin, Hflag|].
      unfold prop. rewrite validate_authorPermissionFile, Hflag. reflexivity.
    + destruct (step_ResetClick w w' Hstep) as (_ & ->). simpl.
      split; [intros _; split; reflexivity|discriminate].
    + destruct (step_TimerFires w w' i Hc Hstep) as (d & _ & _ & _ & _ & ->).
      simpl. split; assumption.
    + destruct (step_GeneratorSettles w w' i settled Hc Hstep)
        as (d & _ & _ & _ & _ & ->).
      destruct (on_settled_app settled (mkWorld (app w) [] (log w)))
        as [-> ->].
      simpl. split; assumption.
Qed.

(** X9: in every reachable state, while the director is marked as the
    playwright there is no stored permission file and no permission error
    showing.  The flag cannot be up with a file left behind. *)
Theorem no_permission_while_director_is_playwright (w : World) :
  reachable w ->
  isDirectorPlaywright (formData (app w)) = true ->
  authorPermissionFile (formData (app w)) = None
  /\ truthy_value (prop (errors (app w)) "authorPermissionFile") = false.
Proof.
  intros Hreach. destruct (reachable_permission w Hreach) as [Hin _].
  exact Hin.
Qed.

Lemma no_permission_while_director_is_playwright_witness :
  authorPermissionFile (formData (app permissionWorld)) = Some scanJpg
  /\ (exists w', step permissionWorld (RadioClick true) = Some w'
                 /\ authorPermissionFile (formData (app w')) = None).
Proof.
  split; [reflexivity|].
  eexists. split; [reflexivity|].
  apply no_permission_while_director_is_playwright; [|reflexivity].
  exists [RadioClick false; PermissionChange (picks scanJpg);
          RadioClick true].
  reflexivity.
Defined.

(** X10: in every reachable state a stored permission file has one of the
    four types the guard lets through: application/pdf, image/jpeg,
    image/png or image/jpg. *)
Theorem permission_file_type (w : World) (f : File) :
  reachable w ->
  authorPermissionFile (formData (app w)) = Some f ->
  file_type f = js "application/pdf" \/ file_type f = js "image/jpeg"
  \/ file_type f = js "image/png" \/ file_type f = js "image/jpg".
Proof.
  intros Hreach Hf. destruct (reachable_permission w Hreach) as [_ Hacc].
  specialize (Hacc f Hf). unfold includes, permissionTypes in Hacc.
  cbn [existsb] in Hacc. rewrite orb_false_r in Hacc.
  repeat (apply orb_true_iff in Hacc as [Hacc|Hacc]);
    apply strict_eq_true in Hacc; tauto.
Qed.

Lemma permission_file_type_witness :
  file_type scanJpg = js "application/pdf"
  \/ file_type scanJpg = js "image/jpeg"
  \/ file_type scanJpg = js "image/png"
  \/ file_type scanJpg = js "image/jpg".
Proof.
  apply (permission_file_type permissionWorld scanJpg); [|reflexivity].
  exists [RadioClick false; PermissionChange (picks scanJpg)].
  reflexivity.
Defined.

(** ** Invariants of the submission *)

Lemma reachable_message (w : World) :
  reachable w -> isSuccess (app w) = false -> aiMessage (app w) = [].
Proof.
  apply (reachable_ind
           (fun w => isSuccess (app w) = false -> aiMessage (app w) = [])).
  - reflexivity.
  - clear w. intros w ev w' Hreach IH Hstep.
    destruct (reachable_invariant w Hreach) as [Hc _].
    destruct ev as [name value|isDirector|e|e| | |i|i settled].
    + destruct (step_input w w' (InputChange name value) eq_refl Hstep)
        as (h & -> & -> & Hsuc).
      simpl.
      pose proof (handleInputChange_frame name value (app w))
        as (_ & _ & -> & _).
      intros _. apply IH, Hsuc.
    + destruct (step_input w w' (RadioClick isDirector) eq_refl Hstep)
        as (h & -> & -> & Hsuc).
      simpl.
      pose proof (handleRadioChange_flags isDirector (app w))
        as (_ & _ & -> & _).
      intros _. apply IH, Hsuc.
    + destruct (step_input w w' (ScriptChange e) eq_refl Hstep)
        as (h & -> & -> & Hsuc).
      simpl.
      pose proof (handleScriptChange_flags e (app w)) as (_ & _ & ->).
      intros _. apply IH, Hsuc.
    + destruct (step_input w w' (PermissionChange e) eq_refl Hstep)
        as (h & -> & [-> _] & Hsuc).
      simpl.
      pose proof (handlePermissionChange_flags e (app w))
        as (_ & _ & -> & _).
      intros _. apply IH, Hsuc.
    + destruct (step_Submit w w' Hstep) as (Hsuc & _ & ->).
      destruct (has_keys (validate (formData (app w)))); simpl;
        intros _; apply IH, Hsuc.
    + destruct (step_ResetClick w w' Hstep) as (_ & ->). reflexivity.
    + destruct (step_TimerFires w w' i Hc Hstep)
        as (d & _ & _ & _ & Hsuc & ->).
      simpl. intros _. apply IH, Hsuc.
    + destruct (step_GeneratorSettles w w' i settled Hc Hstep)
        as (d & _ & _ & _ & Hsuc & ->).
      destruct settled; simpl; [discriminate|].
      intros _. apply IH, Hsuc.
Qed.

(** X11: in every reachable state the submitting flag and the success flag
    are never up together, nothing is suspended while the success view
    shows, and outside the success view the stored message is the empty
    string. *)
Theorem flags_and_message (w : World) :
  reachable w ->
  isSubmitting (app w) && isSuccess (app w) = false
  /\ (phase (app w) = Success -> suspended w = [])
  /\ (phase (app w) <> Success -> aiMessage (app w) = []).
Proof.
  intros Hreach. split; [|split].
  - destruct (isSuccess (app w)) eqn:Hsuc; [|apply andb_false_r].
    destruct (reachable_Success w Hreach Hsuc) as [_ ->]. reflexivity.
  - intros Hphase. apply phase_Success in Hphase.
    apply (reachable_Success w Hreach Hphase).
  - intros Hphase. apply (reachable_message w Hreach).
    destruct (isSuccess (app w)) eqn:Hsuc; [|reflexivity].
    contradiction Hphase. apply phase_Success, Hsuc.
Qed.

Lemma flags_and_message_witness :
  phase (app rejectedWorld) <> Success /\ aiMessage (app rejectedWorld) = [].
Proof.
  assert (Hphase : phase (app rejectedWorld) <> Success) by discriminate.
  split; [exact Hphase|].
  apply (flags_and_message rejectedWorld); [|exact Hphase].
  exists (fillsForm ++ [Submit; TimerFires 0%nat;
                        GeneratorSettles 0%nat Rejected]).
  reflexivity.
Defined.

Lemma has_keys_false (m : ErrorMap) : has_keys m = false -> m = ∅.
Proof.
  intros Hk. destruct (decide (m = ∅)) as [E|E]; [exact E|].
  apply has_keys_nonempty in E. congruence.
Qed.

Lemma valid_nonblank (d : RegistrationData) :
  validate d = ∅ ->
  whitespace_only (directorName d) = false
  /\ whitespace_only (playTitle d) = false.
Proof.
  intros Hd. apply validate_empty_passes in Hd.
  destruct Hd as (H1 & _ & _ & H4 & _). split; assumption.
Qed.

Lemma reachable_calls (w : World) :
  reachable w ->
  Forall in_flight_valid (suspended w) /\ Forall nonblank_call (log w).
Proof.
  apply (reachable_ind
           (fun w => Forall in_flight_valid (suspended w)
                     /\ Forall nonblank_call (log w))).
  - split; constructor.
  - clear w. intros w ev w' Hreach [Hsusp Hlog] Hstep.
    destruct (reachable_invariant w Hreach) as [Hc _].
    destruct (is_input_event ev) eqn:Hin.
    + destruct (step_input w w' ev Hin Hstep) as (h & -> & _).
      simpl. split; assumption.
    + destruct ev as [name value|isDirector|e|e| | |i|i settled];
        try discriminate Hin.
      * destruct (step_Submit w w' Hstep) as (_ & _ & ->).
        destruct (has_keys (validate (formData (app w)))) eqn:Hk; simpl.
        -- split; [exact Hsusp|].
           apply Forall_app. split; [exact Hlog|].
           constructor; [exact I|constructor].
        -- split.
           ++ apply Forall_app. split; [exact Hsusp|].
              constructor; [|constructor].
              exists (formData (app w)).
              split; [apply has_keys_false, Hk|left; reflexivity].
           ++ apply Forall_app. split.
              ** apply Forall_app. split; [exact Hlog|].
                 constructor; [exact I|constructor].
              ** constructor; [exact I|constructor].
      * destruct (step_ResetClick w w' Hstep) as (_ & ->).
        simpl. split; assumption.
      * destruct (step_TimerFires w w' i Hc Hstep)
          as (d & Hd & _ & _ & _ & ->).
        rewrite Hd in Hsusp. apply Forall_cons in Hsusp as [Hvalid _].
        destruct Hvalid as (d' & Hd' & [Heq|Heq]); [|discriminate].
        unfold awaiting_delay, awaiting_generator in Heq.
        injection Heq as Hname Htitle.
        destruct (valid_nonblank d' Hd') as [Hn Ht].
        simpl. split.
        -- constructor; [|constructor].
           exists d'. split; [exact Hd'|right].
           unfold awaiting_generator. rewrite Hname, Htitle. reflexivity.
        -- apply Forall_app. split; [exact Hlog|].
           constructor; [|constructor].
           simpl. rewrite Hname, Htitle. split; assumption.
      * destruct (step_GeneratorSettles w w' i settled Hc Hstep)
          as (d & _ & _ & _ & _ & ->).
        destruct settled; simpl.
        -- split; [constructor|exact Hlog].
        -- split; [constructor|].
           rewrite <- app_assoc. apply Forall_app. split; [exact Hlog|].
           constructor; [exact I|]. constructor; [exact I|constructor].
Qed.

(** X12: whatever the sequence of events, the generator is only ever called
    with a director name and a play title that are not blank: every call in
    the log of a reachable state has both arguments containing a character
    that is not white space. *)
Theorem generator_never_called_blank (w : World) (name title : jsstring) :
  reachable w ->
  CallGenerateWelcomeMessage name title ∈ log w ->
  whitespace_only name = false /\ whitespace_only title = false.
Proof.
  intros Hreach Hin. destruct (reachable_calls w Hreach) as [_ Hlog].
  rewrite Forall_forall in Hlog.
  exact (Hlog (CallGenerateWelcomeMessage name title) Hin).
Qed.

Lemma generator_never_called_blank_witness :
  whitespace_only (js "Ann Lee") = false /\ whitespace_only (js "Dusk") = false.
Proof.
  apply (generator_never_called_blank submittedWorld).
  - exists (fillsForm ++ [Submit; TimerFires 0%nat]). reflexivity.
  - apply list_elem_of_lookup. exists 2%nat. reflexivity.
Defined.

(** ** Around a suspended submission *)

(** X13: while a submission is suspended, no event of the rendered tree can
    cancel it, start another or leave the submitting phase: the only such
    events that can occur are those of the form's inputs (submit and reset
    are not delivered), and they leave the suspended invocation and the
    log of effects as they were. *)
Theorem suspended_submission_not_cancelled (w w' : World) (ev : Event) :
  reachable w ->
  suspended w <> [] ->
  is_dom_event ev = true ->
  step w ev = Some w' ->
  is_input_event ev = true
  /\ suspended w' = suspended w
  /\ log w' = log w
  /\ phase (app w') = Submitting.
Proof.
  intros Hreach Hsome Hdom Hstep.
  destruct (reachable_invariant w Hreach) as [Hc _].
  assert (Hflags : isSubmitting (app w) = true /\ isSuccess (app w) = false).
  { unfold consistent in Hc.
    destruct (suspended w) as [|t0 [|t1 rest]];
      [contradiction|tauto|contradiction]. }
  destruct Hflags as [Hsub Hsuc].
  destruct (is_input_event ev) eqn:Hin.
  - split; [reflexivity|].
    destruct (input_events_frame [ev] w w') as (-> & -> & Hsub' & Hsuc' & _).
    + simpl. rewrite Hin. reflexivity.
    + simpl. rewrite Hstep. reflexivity.
    + unfold phase. rewrite Hsub', Hsuc', Hsub, Hsuc. repeat split.
  - destruct ev; try discriminate.
    + destruct (step_Submit w w' Hstep) as (_ & Hidle & _). congruence.
    + destruct (step_ResetClick w w' Hstep) as (Hshown & _). congruence.
Qed.

Lemma suspended_submission_not_cancelled_witness :
  exists w',
    step submittedWorld (InputChange PlayTitle []) = Some w'
    /\ playTitle (formData (app w')) = []
    /\ suspended w' = suspended submittedWorld
    /\ phase (app w') = Submitting.
Proof.
  eexists. split; [reflexivity|]. split; [reflexivity|].
  assert (Hreach : reachable submittedWorld).
  { exists (fillsForm ++ [Submit; TimerFires 0%nat]). reflexivity. }
  assert (Hsome : suspended submittedWorld <> []) by discriminate.
  destruct (suspended_submission_not_cancelled submittedWorld _
              (InputChange PlayTitle []) Hreach Hsome eq_refl eq_refl)
    as (_ & Hsusp & _ & Hphase).
  split; [exact Hsusp|exact Hphase].
Defined.

(** X14: after a rejection the submit control delivers events again, and
    the code does not retry by itself: nothing is left suspended.  If the
    form data still pass the validator, a new submit event starts a new
    submission from them: the flag goes up again, one invocation is
    suspended and a new delay is started. *)
Theorem retry_after_rejection (w w' : World) (i : nat) :
  reachable w ->
  step w (GeneratorSettles i Rejected) = Some w' ->
  suspended w' = []
  /\ (exists w'', step w' Submit = Some w'')
  /\ (validate (formData (app w)) = ∅ ->
      exists w'',
        step w' Submit = Some w''
        /\ phase (app w'') = Submitting
        /\ suspended w'' = [awaiting_delay (formData (app w))]
        /\ log w'' = log w' ++ [PreventDefault; SetTimeout 1500]).
Proof.
  intros Hreach Hstep.
  destruct (reachable_invariant w Hreach) as [Hc _].
  destruct (step_GeneratorSettles w w' i Rejected Hc Hstep)
    as (d & _ & _ & Hsub & Hsuc & ->).
  simpl. split; [reflexivity|]. split.
  - unfold step. simpl. rewrite Hsuc. simpl. eauto.
  - intros Hvalid. eexists. split.
    + apply step_Submit_valid; simpl; [exact Hsuc|reflexivity|].
      rewrite Hvalid. reflexivity.
    + unfold phase. simpl. rewrite Hsuc, <- !app_assoc. repeat split.
Qed.

Lemma retry_after_rejection_witness :
  validate (formData (app submittedWorld)) = ∅
  /\ (exists w'', step rejectedWorld Submit = Some w''
                  /\ phase (app w'') = Submitting).
Proof.
  split; [reflexivity|].
  assert (Hreach : reachable submittedWorld).
  { exists (fillsForm ++ [Submit; TimerFires 0%nat]). reflexivity. }
  destruct (retry_after_rejection submittedWorld _ 0%nat Hreach eq_refl)
    as (_ & _ & Hretry).
  destruct (Hretry eq_refl) as (w'' & Hstep & Hphase & _).
  exists w''. split; [exact Hstep|exact Hphase].
Defined.
